(** * IB question bank: record store, query engine, tag state, auto-tagger

  A shallow embedding of the core of the repository:
    - [types.ts]               -> module [Types]
    - [App.tsx]                -> module [App] (filter predicate, tri-state
                              toggles, state merge after an auto-tag)
    - [TopicTaggerModal]       -> module [TopicTaggerModal] (auto-tag rule)
    - [utils/db.ts]            -> module [Db] (IndexedDB wrappers)

  JavaScript built-ins used by the code are collected in module [Js]. *)

From Stdlib Require Import ZArith Ascii String List Bool Lia Sorting.Permutation.
From stdpp Require Import gmap strings list fin_maps sorting pretty.
Import ListNotations.

(** ** JavaScript built-ins *)

Module Js.

(** [Array.prototype.includes] on an array of strings (strict equality). *)
Definition includes (l : list string) (x : string) : bool :=
  existsb (String.eqb x) l.

(** [Array.prototype.some] and [Array.prototype.every]. *)
Definition some {A} (f : A -> bool) (l : list A) : bool := existsb f l.
Definition every {A} (f : A -> bool) (l : list A) : bool := forallb f l.

(** [String.prototype.startsWith]: [startsWith s p] tests whether [p] is a
  prefix of [s]. *)
Fixpoint startsWith (s p : string) {struct p} : bool :=
  match p with
  | EmptyString => true
  | String a p' =>
      match s with
      | EmptyString => false
      | String b s' => Ascii.eqb a b && startsWith s' p'
      end
  end.

(** [String.prototype.includes]: substring test. *)
Fixpoint str_includes (s sub : string) : bool :=
  startsWith s sub ||
  match s with
  | EmptyString => false
  | String _ s' => str_includes s' sub
  end.

(** [String.prototype.toLowerCase].  Strings are sequences of 8-bit code
  units here, and the letters [A-Z] are the ones with a lower-case
  form. *)
Definition lowerChar (c : ascii) : ascii :=
  let n := nat_of_ascii c in
  if (65 <=? n)%nat && (n <=? 90)%nat then ascii_of_nat (n + 32) else c.

Fixpoint toLowerCase (s : string) : string :=
  match s with
  | EmptyString => EmptyString
  | String c s' => String (lowerChar c) (toLowerCase s')
  end.

(** Truthiness of a string: only the empty string is falsy. *)
Definition truthy_str (s : string) : bool := negb (String.eqb s "").

(** Truthiness of [boolean | undefined]. *)
Definition truthy (o : option bool) : bool :=
  match o with Some b => b | None => false end.

(** [Array.prototype.sort(compareFn)].  The sort is stable: [x] goes before
    [y] when [compareFn x y] is negative, after it when positive, and keeps
    its place among the elements it compares equal to.  An element is never
    compared with itself. *)
Fixpoint insert_by {A} (compareFn : A -> A -> Z) (x : A) (l : list A)
  : list A :=
  match l with
  | [] => [x]
  | y :: l' =>
      if (compareFn x y <=? 0)%Z then x :: y :: l'
      else y :: insert_by compareFn x l'
  end.

Definition sort_by {A} (compareFn : A -> A -> Z) (l : list A) : list A :=
  foldr (insert_by compareFn) [] l.

(** [Array.prototype.sort()] on strings: ascending order of code units. *)
Definition compare_strings (a b : string) : Z :=
  match String.compare a b with
  | Lt => (-1)%Z
  | Eq => 0%Z
  | Gt => 1%Z
  end.

Definition sort (l : list string) : list string := sort_by compare_strings l.

(** [Set.prototype.add] followed by [Array.from]: a set lists its elements
    in the order they were first added. *)
Definition set_add {A} (eqb : A -> A -> bool) (set : list A) (x : A) : list A :=
  if existsb (eqb x) set then set else set ++ [x].

(** [String.prototype.trim]: the white space and line terminators of the
    ASCII range are TAB, LF, VT, FF, CR and SPACE. *)
Definition isWhiteSpace (c : ascii) : bool :=
  let n := nat_of_ascii c in
  ((9 <=? n)%nat && (n <=? 13)%nat) || (n =? 32)%nat.

Fixpoint trimStart (s : string) : string :=
  match s with
  | EmptyString => EmptyString
  | String c s' => if isWhiteSpace c then trimStart s' else s
  end.

Fixpoint trimEnd (s : string) : string :=
  match s with
  | EmptyString => EmptyString
  | String c s' =>
      match trimEnd s' with
      | EmptyString => if isWhiteSpace c then EmptyString else String c EmptyString
      | t => String c t
      end
  end.

Definition trim (s : string) : string := trimEnd (trimStart s).

End Js.

(** ** types.ts *)

Module Types.

Inductive PaperType := Paper1 | Paper2_1b.
Inductive ExamMonth := May | November | MonthUnknown.
Inductive Difficulty := Easy | Medium | Hard.

(** [number | 'Unknown']; the numbers are whole years. *)
Inductive Year := YearNum (n : Z) | YearUnknown.

Inductive AnswerType := Selection | Image.
Inductive AnswerSelection := AnsA | AnsB | AnsC | AnsD.

Record QuestionPart := {
  part_id : string;
  label : string;
  questionImage : option string;
  answerImage : option string
}.

(** An optional field [f?: T | null] is [None] when absent and
  [Some None] when [null].  [topics] and [questionNumber] are declared
  mandatory, but every reader guards them ([q.topics || []],
  [q.questionNumber?.]), so a missing value is representable. *)
Record Question := {
  id : string;
  createdAt : Z;
  keywords : list string;
  topics : option (list string);
  difficulty : Difficulty;
  year : Year;
  month : ExamMonth;
  questionNumber : option string;
  paperType : PaperType;
  p1QuestionImage : option (option string);
  p1AnswerType : option AnswerType;
  p1AnswerSelection : option (option AnswerSelection);
  p1AnswerImage : option (option string);
  parts : option (list QuestionPart)
}.

(** [number | 'All' | 'Unknown'] *)
Inductive YearFilter := YearAll | YearIs (y : Year).

(** [T | 'All'] *)
Inductive Sel (A : Type) := All | Only (a : A).
Arguments All {A}.
Arguments Only {A} a.

Record FilterState := {
  includedKeywords : list string;
  excludedKeywords : list string;
  includedTopics : list string;
  excludedTopics : list string;
  f_year : YearFilter;
  f_paperType : Sel PaperType;
  f_difficulty : Sel Difficulty;
  searchQuery : string
}.

(** Strict equality [===] on the enumerations and on years. *)
Definition paperType_eqb (a b : PaperType) : bool :=
  match a, b with
  | Paper1, Paper1 | Paper2_1b, Paper2_1b => true
  | _, _ => false
  end.

Definition difficulty_eqb (a b : Difficulty) : bool :=
  match a, b with
  | Easy, Easy | Medium, Medium | Hard, Hard => true
  | _, _ => false
  end.

Definition year_eqb (a b : Year) : bool :=
  match a, b with
  | YearNum n, YearNum m => (n =? m)%Z
  | YearUnknown, YearUnknown => true
  | _, _ => false
  end.

(** [q.topics || []] *)
Definition topics_or_empty (q : Question) : list string :=
  match topics q with Some l => l | None => [] end.

End Types.

(** ** utils/db.ts *)

Module Db.
Import Types.

(** *** The storage engine (IndexedDB)

    The object store [questions] has the in-line key path [id]: it is a
    finite map from identifiers to records, and [put] stores a record under
    its own [id].  A database that was never opened holds no record, so it
    is the empty map; [onupgradeneeded] creates the object store with its
    two non-unique indexes and changes no record. *)
Abbreviation Store := (gmap string Question).

(** The name of a [DOMException] ("QuotaExceededError", ...). *)
Definition DOMException := string.

(** What the engine does during one call: whether [indexedDB.open] fires
    [error]; which request of the transaction (numbered from 0 in the order
    it is placed) fails, and with what; whether the commit fails after every
    request succeeded. *)
Record Engine := {
  open_fails : bool;
  request_error : nat -> option DOMException;
  commit_error : option DOMException
}.

Inductive Request :=
| Put (q : Question)
| GetAll
| Delete (key : string)
| Clear.

(** [request.result] *)
Inductive Result :=
| ResKey (key : string)
| ResRecords (l : list Question)
| ResUndefined.

(** The events the handlers of db.ts listen to.  [TxError] and [TxAbort]
    carry the value of [transaction.error] at the time the event is
    dispatched: an [error] event that bubbles up from a request reaches the
    transaction before the transaction is aborted, when [transaction.error]
    is still [null]; the abort then sets it. *)
Inductive Event :=
| ReqSuccess (i : nat) (result : Result)
| ReqError (i : nat) (e : DOMException)
| TxError (txerr : option DOMException)
| TxAbort (txerr : option DOMException)
| TxComplete.

(** Records in ascending key order, as [IDBObjectStore.getAll] returns
    them. *)
Definition key_le (a b : string * Question) : Prop :=
  String.leb a.1 b.1 = true.

#[global] Instance key_le_dec : RelDecision key_le :=
  fun a b => decide (String.leb a.1 b.1 = true).

Definition records (s : Store) : list Question :=
  (merge_sort key_le (map_to_list s)).*2.

(** One request against the working copy of the store. *)
Definition perform (r : Request) (w : Store) : Store * Result :=
  match r with
  | Put q => (<[id q := q]> w, ResKey (id q))
  | GetAll => (w, ResRecords (records w))
  | Delete k => (delete k w, ResUndefined)
  | Clear => (∅, ResUndefined)
  end.

(** Requests run in the order they were placed.  No handler of db.ts calls
    [preventDefault] or [stopPropagation], so a failed request aborts the
    transaction and whatever was written is rolled back ([None]); when all
    requests are done the transaction commits, unless the commit itself
    fails.  The [error] events an aborted transaction sends to the requests
    it never ran come after the ones listed and find the promise settled. *)
Fixpoint exec (e : Engine) (i : nat) (reqs : list Request) (w : Store)
  : list Event * option Store :=
  match reqs with
  | [] =>
      match commit_error e with
      | Some err => ([TxAbort (Some err)], None)
      | None => ([TxComplete], Some w)
      end
  | r :: reqs' =>
      match request_error e i with
      | Some err => ([ReqError i err; TxError None; TxAbort (Some err)], None)
      | None =>
          let '(w', res) := perform r w in
          let '(evs, out) := exec e (S i) reqs' w' in
          (ReqSuccess i res :: evs, out)
      end
  end.

Definition transaction (e : Engine) (s : Store) (reqs : list Request)
  : list Event * Store :=
  let '(evs, out) := exec e 0 reqs s in (evs, default s out).

(** *** Promises *)

(** The value a promise is rejected with: a string, or [request.error] /
    [transaction.error] ([None] is [null]). *)
Inductive Rejection :=
| RejString (msg : string)
| RejError (e : option DOMException).

Inductive Promise (A : Type) :=
| Pending
| Resolved (a : A)
| Rejected (r : Rejection).
Arguments Pending {A}.
Arguments Resolved {A} a.
Arguments Rejected {A} r.

(** Only the first call of [resolve] or [reject] settles the promise. *)
Definition resolve {A} (a : A) (p : Promise A) : Promise A :=
  match p with Pending => Resolved a | _ => p end.

Definition reject {A} (r : Rejection) (p : Promise A) : Promise A :=
  match p with Pending => Rejected r | _ => p end.

(** An asynchronous function: it runs against the store and yields a
    promise. *)
Definition Async (A : Type) : Type := Store -> Promise A * Store.

(** [const x = await m; k x]: a rejection of [m] rejects the caller. *)
Definition await {A B} (m : Async A) (k : A -> Async B) : Async B :=
  fun s =>
    match m s with
    | (Resolved a, s') => k a s'
    | (Rejected r, s') => (Rejected r, s')
    | (Pending, s') => (Pending, s')
    end.

Notation "'let*' x ':=' 'await' m 'in' k" := (await m (fun x => k))
  (at level 10, x name, m at level 100, k at level 200).

(** [new Promise((resolve, reject) => ...)] around one transaction: the
    requests are placed, the handlers installed, and the events are
    delivered in order. *)
Definition in_transaction {A} (e : Engine) (reqs : list Request)
    (handlers : Event -> Promise A -> Promise A) : Async A :=
  fun s =>
    let '(evs, s') := transaction e s reqs in
    (fold_left (fun p ev => handlers ev p) evs Pending, s').

(** *** The functions of db.ts *)

(** The handle stands for the opened database. *)
Definition initDB (e : Engine) : Async unit :=
  fun s =>
    if open_fails e then (Rejected (RejString "IndexedDB error"), s)
    else (Resolved tt, s).

Definition getAllQuestions (e : Engine) : Async (list Question) :=
  let* db := await initDB e in
  in_transaction e [GetAll]
    (fun ev =>
       match ev with
       | ReqSuccess 0 (ResRecords l) => resolve l
       | ReqError 0 err => reject (RejError (Some err))
       | _ => fun p => p
       end).

Definition addQuestionToDB (question : Question) (e : Engine) : Async unit :=
  let* db := await initDB e in
  in_transaction e [Put question]
    (fun ev =>
       match ev with
       | ReqSuccess 0 _ => resolve tt
       | ReqError 0 err => reject (RejError (Some err))
       | _ => fun p => p
       end).

Definition bulkUpdateQuestions (questions : list Question) (e : Engine)
  : Async unit :=
  let* db := await initDB e in
  in_transaction e (map Put questions)
    (fun ev =>
       match ev with
       | TxComplete => resolve tt
       | TxError txerr => reject (RejError txerr)
       | TxAbort txerr => reject (RejError txerr)
       | _ => fun p => p
       end).

Definition deleteQuestionFromDB (key : string) (e : Engine) : Async unit :=
  let* db := await initDB e in
  in_transaction e [Delete key]
    (fun ev =>
       match ev with
       | ReqSuccess 0 _ => resolve tt
       | ReqError 0 err => reject (RejError (Some err))
       | _ => fun p => p
       end).

Definition clearAllQuestions (e : Engine) : Async unit :=
  let* db := await initDB e in
  in_transaction e [Clear]
    (fun ev =>
       match ev with
       | ReqSuccess 0 _ => resolve tt
       | ReqError 0 err => reject (RejError (Some err))
       | _ => fun p => p
       end).

(** An engine that never fails, and one whose [k]-th request fails. *)
Definition healthy : Engine :=
  {| open_fails := false; request_error := fun _ => None; commit_error := None |}.

Definition failing_at (k : nat) (err : DOMException) : Engine :=
  {| open_fails := false;
     request_error := fun i => if (i =? k)%nat then Some err else None;
     commit_error := None |}.

End Db.

(** ** components/TopicTaggerModal.tsx *)

Module TopicTaggerModal.
Import Types.

(** The [useMemo] that computes the records the rule applies to. *)
Definition affectedQuestions (allQuestions : list Question)
    (targetTopic : string) (keywords : list string) : list Question :=
  if negb (Js.truthy_str targetTopic) || (length keywords =? 0)%nat then []
  else
    List.filter
      (fun q =>
         let hasKeyword :=
           Js.some (fun k => Js.includes keywords k) (Types.keywords q) in
         let missingTopic :=
           negb (Js.includes (topics_or_empty q) targetTopic) in
         hasKeyword && missingTopic)
      allQuestions.

(** [{ ...q, topics: [...(q.topics || []), targetTopic] }] *)
Definition withTopic (targetTopic : string) (q : Question) : Question :=
  {| id := id q;
     createdAt := createdAt q;
     keywords := Types.keywords q;
     topics := Some (topics_or_empty q ++ [targetTopic]);
     difficulty := difficulty q;
     year := year q;
     month := month q;
     questionNumber := questionNumber q;
     paperType := paperType q;
     p1QuestionImage := p1QuestionImage q;
     p1AnswerType := p1AnswerType q;
     p1AnswerSelection := p1AnswerSelection q;
     p1AnswerImage := p1AnswerImage q;
     parts := parts q |}.

(** [handleApply]: the list handed to [onApply]. *)
Definition handleApply (allQuestions : list Question)
    (targetTopic : string) (keywords : list string) : list Question :=
  map (withTopic targetTopic) (affectedQuestions allQuestions targetTopic keywords).

(** *** The form of the modal *)

(** The three hooks: [targetTopic], [keywords], [keywordInput]. *)
Record Form := {
  tg_targetTopic : string;
  tg_keywords : list string;
  tg_keywordInput : string
}.


(** [e.key] *)
Inductive Key := Tab | Enter | OtherKey.

Definition handleKeywordKeyDown (key : Key) (st : Form) : Form :=
  match key with
  | OtherKey => st
  | _ =>
      let trimmed := Js.trim (tg_keywordInput st) in
      if Js.truthy_str trimmed && negb (Js.includes (tg_keywords st) trimmed)
      then {| tg_targetTopic := tg_targetTopic st;
              tg_keywords := tg_keywords st ++ [trimmed];
              tg_keywordInput := "" |}
      else st
  end.

Definition removeKeyword (k : string) (st : Form) : Form :=
  {| tg_targetTopic := tg_targetTopic st;
     tg_keywords :=
       List.filter (fun kw => negb (String.eqb kw k)) (tg_keywords st);
     tg_keywordInput := tg_keywordInput st |}.

(** The suggestions under the two inputs. *)
Definition filteredKeywords (existingKeywords : list string) (st : Form)
  : list string :=
  take 5
    (List.filter
       (fun k =>
          Js.str_includes (Js.toLowerCase k) (Js.toLowerCase (tg_keywordInput st))
          && negb (Js.includes (tg_keywords st) k))
       existingKeywords).

Definition filteredTopics (existingTopics : list string) (st : Form)
  : list string :=
  take 5
    (List.filter
       (fun t =>
          Js.str_includes (Js.toLowerCase t) (Js.toLowerCase (tg_targetTopic st))
          && negb (String.eqb t (tg_targetTopic st)))
       existingTopics).

(** The [onClick] of a keyword suggestion and of a topic suggestion. *)
Definition pickKeyword (s : string) (st : Form) : Form :=
  {| tg_targetTopic := tg_targetTopic st;
     tg_keywords := tg_keywords st ++ [s];
     tg_keywordInput := "" |}.

Definition pickTopic (t : string) (st : Form) : Form :=
  {| tg_targetTopic := t;
     tg_keywords := tg_keywords st;
     tg_keywordInput := tg_keywordInput st |}.



End TopicTaggerModal.

(** ** App.tsx *)

Module App.
Import Types.

(** *** [filteredQuestions] *)

Section Filter.
Variable f : FilterState.
Variable q : Question.

Definition matchesSearch : bool :=
  String.eqb (searchQuery f) ""
  || Js.some (fun k => Js.str_includes (Js.toLowerCase k)
                         (Js.toLowerCase (searchQuery f))) (keywords q)
  || Js.some (fun t => Js.str_includes (Js.toLowerCase t)
                         (Js.toLowerCase (searchQuery f))) (topics_or_empty q)
  || Js.truthy
       (match questionNumber q with
        | Some n => Some (Js.str_includes (Js.toLowerCase n)
                            (Js.toLowerCase (searchQuery f)))
        | None => None
        end).

Definition matchesType : bool :=
  match f_paperType f with
  | All => true
  | Only p => paperType_eqb (paperType q) p
  end.

Definition matchesYear : bool :=
  match f_year f with
  | YearAll => true
  | YearIs y => year_eqb (year q) y
  end.

Definition matchesDifficulty : bool :=
  match f_difficulty f with
  | All => true
  | Only d => difficulty_eqb (difficulty q) d
  end.

Definition matchesIncludedKeywords : bool :=
  (length (includedKeywords f) =? 0)%nat
  || Js.every (fun k => Js.includes (keywords q) k) (includedKeywords f).

Definition matchesIncludedTopics : bool :=
  (length (includedTopics f) =? 0)%nat
  || Js.every (fun t => Js.includes (topics_or_empty q) t) (includedTopics f).

Definition matchesExcludedKeywords : bool :=
  (length (excludedKeywords f) =? 0)%nat
  || negb (Js.some (fun k => Js.includes (excludedKeywords f) k) (keywords q)).

Definition matchesExcludedTopics : bool :=
  (length (excludedTopics f) =? 0)%nat
  || negb (Js.some (fun t => Js.includes (excludedTopics f) t) (topics_or_empty q)).

(** The callback of [questions.filter]. *)
Definition passesFilter : bool :=
  matchesSearch && matchesType && matchesYear && matchesDifficulty
  && matchesIncludedKeywords && matchesIncludedTopics
  && matchesExcludedKeywords && matchesExcludedTopics.

End Filter.

Definition filteredQuestions (questions : list Question) (f : FilterState)
  : list Question :=
  List.filter (passesFilter f) questions.

(** *** Tri-state filter handlers

    The handler tests the lists of the render it was created in and queues
    functional updates; every click is handled by the handler of the latest
    render, so the lists tested and the lists updated are the same ones. *)

Definition setKeywords (inc exc : list string) (f : FilterState) : FilterState :=
  {| includedKeywords := inc;
     excludedKeywords := exc;
     includedTopics := includedTopics f;
     excludedTopics := excludedTopics f;
     f_year := f_year f;
     f_paperType := f_paperType f;
     f_difficulty := f_difficulty f;
     searchQuery := searchQuery f |}.

Definition setTopics (inc exc : list string) (f : FilterState) : FilterState :=
  {| includedKeywords := includedKeywords f;
     excludedKeywords := excludedKeywords f;
     includedTopics := inc;
     excludedTopics := exc;
     f_year := f_year f;
     f_paperType := f_paperType f;
     f_difficulty := f_difficulty f;
     searchQuery := searchQuery f |}.

(** [prev.filter(i => i !== k)] *)
Definition without (k : string) (prev : list string) : list string :=
  List.filter (fun i => negb (String.eqb i k)) prev.

Definition toggleKeywordFilter (k : string) (f : FilterState) : FilterState :=
  if Js.includes (includedKeywords f) k then
    setKeywords (without k (includedKeywords f)) (excludedKeywords f ++ [k]) f
  else if Js.includes (excludedKeywords f) k then
    setKeywords (includedKeywords f) (without k (excludedKeywords f)) f
  else
    setKeywords (includedKeywords f ++ [k]) (excludedKeywords f) f.

Definition toggleTopicFilter (t : string) (f : FilterState) : FilterState :=
  if Js.includes (includedTopics f) t then
    setTopics (without t (includedTopics f)) (excludedTopics f ++ [t]) f
  else if Js.includes (excludedTopics f) t then
    setTopics (includedTopics f) (without t (excludedTopics f)) f
  else
    setTopics (includedTopics f ++ [t]) (excludedTopics f) f.

Inductive TagType := keyword | topic.
Inductive TagState := include | exclude | neutral.

Definition getTagState (item : string) (type : TagType) (f : FilterState)
  : TagState :=
  match type with
  | keyword =>
      if Js.includes (includedKeywords f) item then include
      else if Js.includes (excludedKeywords f) item then exclude
      else neutral
  | topic =>
      if Js.includes (includedTopics f) item then include
      else if Js.includes (excludedTopics f) item then exclude
      else neutral
  end.

(** The filter state of a fresh [App]: the initial values of the hooks. *)
Definition initialFilter : FilterState :=
  {| includedKeywords := [];
     excludedKeywords := [];
     includedTopics := [];
     excludedTopics := [];
     f_year := YearAll;
     f_paperType := All;
     f_difficulty := All;
     searchQuery := "" |}.

(** A click on a tag chip of the sidebar. *)
Inductive Toggle := ToggleKeyword (k : string) | ToggleTopic (t : string).

Definition toggle (c : Toggle) (f : FilterState) : FilterState :=
  match c with
  | ToggleKeyword k => toggleKeywordFilter k f
  | ToggleTopic t => toggleTopicFilter t f
  end.

Definition toggles (cs : list Toggle) (f : FilterState) : FilterState :=
  fold_left (fun f c => toggle c f) cs f.

(** *** [handleAutoTag]

    The updater given to [setQuestions].  [find] cannot miss when the
    identifier is in [updatedIds] (lemma [find_updated]); the last branch is
    never taken. *)
Definition replaceUpdated (updatedQuestions prev : list Question)
  : list Question :=
  let updatedIds := map id updatedQuestions in
  map (fun q =>
         if Js.includes updatedIds (id q) then
           match List.find (fun uq => String.eqb (id uq) (id q)) updatedQuestions with
           | Some uq => uq
           | None => q
           end
         else q)
      prev.

(** The store is written first; the in-memory list is updated only when the
    bulk write resolved (a rejection is caught and reported). *)
Definition handleAutoTag (updatedQuestions : list Question) (e : Db.Engine)
    (s : Db.Store) (questions : list Question) : Db.Store * list Question :=
  match Db.bulkUpdateQuestions updatedQuestions e s with
  | (Db.Resolved _, s') => (s', replaceUpdated updatedQuestions questions)
  | (_, s') => (s', questions)
  end.

(** *** Derived lists of the sidebar *)

Definition allKeywords (questions : list Question) : list string :=
  Js.sort
    (fold_left
       (fun set q => fold_left (Js.set_add String.eqb) (keywords q) set)
       questions []).

Definition allTopics (questions : list Question) : list string :=
  Js.sort
    (fold_left
       (fun set q => fold_left (Js.set_add String.eqb) (topics_or_empty q) set)
       questions []).

(** The comparator of [availableYears]: numbers descending, then
    ['Unknown']. *)
Definition compareYears (a b : Year) : Z :=
  match a, b with
  | YearUnknown, _ => 1
  | _, YearUnknown => -1
  | YearNum x, YearNum y => y - x
  end.

Definition availableYears (questions : list Question) : list Year :=
  Js.sort_by compareYears
    (fold_left (fun set q => Js.set_add year_eqb set (year q)) questions []).

(** *** Library handlers *)

(** The fields [handleSaveQuestion] remembers for the next new question. *)
Record Metadata := {
  m_year : Year;
  m_month : ExamMonth;
  m_keywords : list string;
  m_topics : option (list string);
  m_paperType : PaperType;
  m_difficulty : Difficulty
}.

(** The hooks the handlers below read and write; [alerts] collects the
    messages shown with [alert]. *)
Record AppState := {
  questions : list Question;
  isLoading : bool;
  keepMetadata : bool;
  lastUsedMetadata : option Metadata;
  alerts : list string
}.

Definition setQuestions (qs : list Question) (st : AppState) : AppState :=
  {| questions := qs;
     isLoading := isLoading st;
     keepMetadata := keepMetadata st;
     lastUsedMetadata := lastUsedMetadata st;
     alerts := alerts st |}.

Definition setIsLoading (b : bool) (st : AppState) : AppState :=
  {| questions := questions st;
     isLoading := b;
     keepMetadata := keepMetadata st;
     lastUsedMetadata := lastUsedMetadata st;
     alerts := alerts st |}.

Definition setLastUsedMetadata (m : option Metadata) (st : AppState) : AppState :=
  {| questions := questions st;
     isLoading := isLoading st;
     keepMetadata := keepMetadata st;
     lastUsedMetadata := m;
     alerts := alerts st |}.

Definition alert (msg : string) (st : AppState) : AppState :=
  {| questions := questions st;
     isLoading := isLoading st;
     keepMetadata := keepMetadata st;
     lastUsedMetadata := lastUsedMetadata st;
     alerts := alerts st ++ [msg] |}.

(** [(a, b) => b.createdAt - a.createdAt] *)
Definition newestFirst (a b : Question) : Z := createdAt b - createdAt a.

(** The effect that loads the library when [App] mounts. *)
Definition loadData (e : Db.Engine) (s : Db.Store) (st : AppState)
  : Db.Store * AppState :=
  match Db.getAllQuestions e s with
  | (Db.Resolved data, s') =>
      (s', setIsLoading false (setQuestions (Js.sort_by newestFirst data) st))
  | (Db.Rejected _, s') => (s', setIsLoading false st)
  | (Db.Pending, s') => (s', st)
  end.

Definition handleSaveQuestion (question : Question) (e : Db.Engine)
    (s : Db.Store) (st : AppState) : Db.Store * AppState :=
  match Db.addQuestionToDB question e s with
  | (Db.Resolved _, s') =>
      let st1 :=
        if keepMetadata st then
          setLastUsedMetadata
            (Some {| m_year := year question;
                     m_month := month question;
                     m_keywords := keywords question;
                     m_topics := topics question;
                     m_paperType := paperType question;
                     m_difficulty := difficulty question |}) st
        else st in
      let others :=
        List.filter (fun q => negb (String.eqb (id q) (id question)))
          (questions st1) in
      (s', setQuestions (Js.sort_by newestFirst (question :: others)) st1)
  | (Db.Rejected _, s') => (s', alert "Failed to save question to database." st)
  | (Db.Pending, s') => (s', st)
  end.

(** [confirmed] is the answer to the [confirm] dialog.  A failed delete is
    only logged to the console. *)
Definition handleDeleteQuestion (key : string) (confirmed : bool)
    (e : Db.Engine) (s : Db.Store) (st : AppState) : Db.Store * AppState :=
  if confirmed then
    match Db.deleteQuestionFromDB key e s with
    | (Db.Resolved _, s') =>
        (s', setQuestions
               (List.filter (fun q => negb (String.eqb (id q) key)) (questions st))
               st)
    | (_, s') => (s', st)
    end
  else (s, st).

Definition handleClearLibrary (confirmed1 confirmed2 : bool) (e : Db.Engine)
    (s : Db.Store) (st : AppState) : Db.Store * AppState :=
  if (length (questions st) =? 0)%nat then (s, st)
  else if confirmed1 then
    if confirmed2 then
      match Db.clearAllQuestions e s with
      | (Db.Resolved _, s') => (s', setIsLoading false (setQuestions [] st))
      | (Db.Rejected _, s') =>
          (s', setIsLoading false
                 (alert "An error occurred while clearing the database." st))
      | (Db.Pending, s') => (s', setIsLoading true st)
      end
    else (s, st)
  else (s, st).

End App.

(** ** components/StudyMode.tsx *)

Module StudyMode.
Import Types.

Record State := {
  currentIndex : Z;
  showAnswer : bool;
  revealedParts : list string
}.

Definition initial : State :=
  {| currentIndex := 0; showAnswer := false; revealedParts := [] |}.

(** [setCurrentIndex] with a new value, followed by the effect that depends
    on [currentIndex]. *)
Definition goTo (i : Z) : State :=
  {| currentIndex := i; showAnswer := false; revealedParts := [] |}.

Definition handleNext (questions : list Question) (st : State) : State :=
  if (currentIndex st <? Z.of_nat (length questions) - 1)%Z
  then goTo (currentIndex st + 1)
  else st.

Definition handlePrev (st : State) : State :=
  if (currentIndex st >? 0)%Z then goTo (currentIndex st - 1) else st.

Definition revealPartAnswer (partId : string) (st : State) : State :=
  if negb (Js.includes (revealedParts st) partId) then
    {| currentIndex := currentIndex st;
       showAnswer := showAnswer st;
       revealedParts := revealedParts st ++ [partId] |}
  else st.

(** The [onClick] of the Reveal / Hide button. *)
Definition toggleAnswer (st : State) : State :=
  {| currentIndex := currentIndex st;
     showAnswer := negb (showAnswer st);
     revealedParts := revealedParts st |}.

(** [questions[currentIndex]] *)
Definition currentQuestion (questions : list Question) (st : State)
  : option Question :=
  if (currentIndex st <? 0)%Z then None
  else questions !! Z.to_nat (currentIndex st).

Inductive Action :=
| Next
| Prev
| Reveal (partId : string)
| ToggleAnswer.

Definition step (questions : list Question) (a : Action) (st : State) : State :=
  match a with
  | Next => handleNext questions st
  | Prev => handlePrev st
  | Reveal partId => revealPartAnswer partId st
  | ToggleAnswer => toggleAnswer st
  end.

Definition run (questions : list Question) (acts : list Action) (st : State)
  : State :=
  fold_left (fun st a => step questions a st) acts st.

End StudyMode.

(** ** components/AddQuestionModal.tsx *)

Module AddQuestionModal.
Import Types.

(** The hooks of the form.  [fm_questionNumber] is [None] after an edit of a
    record that has no question number. *)
Record Form := {
  fm_step : nat;
  fm_keywords : list string;
  fm_keywordInput : string;
  fm_topics : list string;
  fm_topicInput : string;
  fm_year : Year;
  fm_month : ExamMonth;
  fm_questionNumber : option string;
  fm_paperType : PaperType;
  fm_difficulty : Difficulty;
  fm_p1QuestionImage : option string;
  fm_p1AnswerType : AnswerType;
  fm_p1AnswerSelection : option AnswerSelection;
  fm_p1AnswerImage : option string;
  fm_parts : list QuestionPart;
  fm_activePartIndex : Z
}.

(** [{ id: Date.now().toString(), label: 'a', questionImage: null,
    answerImage: null }] *)
Definition firstPart (now : Z) : QuestionPart :=
  {| part_id := pretty now; label := "a";
     questionImage := None; answerImage := None |}.

(** [x || null] for an image reference. *)
Definition or_null (x : option (option string)) : option string :=
  match x with
  | Some (Some img) => if Js.truthy_str img then Some img else None
  | _ => None
  end.

(** The effect that fills the form when the modal opens.  [now] is
    [Date.now()] and [currentYear] is [new Date().getFullYear()]; in create
    mode [p1AnswerType] keeps its previous value, in edit mode the two text
    inputs do. *)
Definition openForm (initialQuestion : option Question)
    (stickyMetadata : option App.Metadata) (now currentYear : Z) (prev : Form)
  : Form :=
  match initialQuestion with
  | Some q =>
      {| fm_step := 1;
         fm_keywords := keywords q;
         fm_keywordInput := fm_keywordInput prev;
         fm_topics := topics_or_empty q;
         fm_topicInput := fm_topicInput prev;
         fm_year := year q;
         fm_month := month q;
         fm_questionNumber := questionNumber q;
         fm_paperType := paperType q;
         fm_difficulty := difficulty q;
         fm_p1QuestionImage := or_null (p1QuestionImage q);
         fm_p1AnswerType := default Selection (p1AnswerType q);
         fm_p1AnswerSelection :=
           match p1AnswerSelection q with Some (Some a) => Some a | _ => None end;
         fm_p1AnswerImage := or_null (p1AnswerImage q);
         fm_parts := default [firstPart now] (parts q);
         fm_activePartIndex := 0 |}
  | None =>
      {| fm_step := 1;
         fm_keywords :=
           match stickyMetadata with Some m => App.m_keywords m | None => [] end;
         fm_keywordInput := "";
         fm_topics :=
           match stickyMetadata with
           | Some m => default [] (App.m_topics m)
           | None => []
           end;
         fm_topicInput := "";
         fm_year :=
           match stickyMetadata with
           | Some m => App.m_year m
           | None => YearNum currentYear
           end;
         fm_month :=
           match stickyMetadata with Some m => App.m_month m | None => May end;
         fm_questionNumber := Some "";
         fm_paperType :=
           match stickyMetadata with
           | Some m => App.m_paperType m
           | None => Paper1
           end;
         fm_difficulty :=
           match stickyMetadata with
           | Some m => App.m_difficulty m
           | None => Medium
           end;
         fm_p1QuestionImage := None;
         fm_p1AnswerType := fm_p1AnswerType prev;
         fm_p1AnswerSelection := None;
         fm_p1AnswerImage := None;
         fm_parts := [firstPart now];
         fm_activePartIndex := 0 |}
  end.

Definition setKeywords (ks : list string) (input : string) (f : Form) : Form :=
  {| fm_step := fm_step f; fm_keywords := ks; fm_keywordInput := input;
     fm_topics := fm_topics f; fm_topicInput := fm_topicInput f;
     fm_year := fm_year f; fm_month := fm_month f;
     fm_questionNumber := fm_questionNumber f;
     fm_paperType := fm_paperType f; fm_difficulty := fm_difficulty f;
     fm_p1QuestionImage := fm_p1QuestionImage f;
     fm_p1AnswerType := fm_p1AnswerType f;
     fm_p1AnswerSelection := fm_p1AnswerSelection f;
     fm_p1AnswerImage := fm_p1AnswerImage f;
     fm_parts := fm_parts f; fm_activePartIndex := fm_activePartIndex f |}.

Definition setTopics (ts : list string) (input : string) (f : Form) : Form :=
  {| fm_step := fm_step f; fm_keywords := fm_keywords f;
     fm_keywordInput := fm_keywordInput f;
     fm_topics := ts; fm_topicInput := input;
     fm_year := fm_year f; fm_month := fm_month f;
     fm_questionNumber := fm_questionNumber f;
     fm_paperType := fm_paperType f; fm_difficulty := fm_difficulty f;
     fm_p1QuestionImage := fm_p1QuestionImage f;
     fm_p1AnswerType := fm_p1AnswerType f;
     fm_p1AnswerSelection := fm_p1AnswerSelection f;
     fm_p1AnswerImage := fm_p1AnswerImage f;
     fm_parts := fm_parts f; fm_activePartIndex := fm_activePartIndex f |}.

Definition setParts (ps : list QuestionPart) (active : Z) (f : Form) : Form :=
  {| fm_step := fm_step f; fm_keywords := fm_keywords f;
     fm_keywordInput := fm_keywordInput f;
     fm_topics := fm_topics f; fm_topicInput := fm_topicInput f;
     fm_year := fm_year f; fm_month := fm_month f;
     fm_questionNumber := fm_questionNumber f;
     fm_paperType := fm_paperType f; fm_difficulty := fm_difficulty f;
     fm_p1QuestionImage := fm_p1QuestionImage f;
     fm_p1AnswerType := fm_p1AnswerType f;
     fm_p1AnswerSelection := fm_p1AnswerSelection f;
     fm_p1AnswerImage := fm_p1AnswerImage f;
     fm_parts := ps; fm_activePartIndex := active |}.

Definition setYear (y : Year) (f : Form) : Form :=
  {| fm_step := fm_step f; fm_keywords := fm_keywords f;
     fm_keywordInput := fm_keywordInput f;
     fm_topics := fm_topics f; fm_topicInput := fm_topicInput f;
     fm_year := y; fm_month := fm_month f;
     fm_questionNumber := fm_questionNumber f;
     fm_paperType := fm_paperType f; fm_difficulty := fm_difficulty f;
     fm_p1QuestionImage := fm_p1QuestionImage f;
     fm_p1AnswerType := fm_p1AnswerType f;
     fm_p1AnswerSelection := fm_p1AnswerSelection f;
     fm_p1AnswerImage := fm_p1AnswerImage f;
     fm_parts := fm_parts f; fm_activePartIndex := fm_activePartIndex f |}.

(** [true] for Tab and Enter, the two keys the handlers react to. *)
Definition handleKeywordKeyDown (tabOrEnter : bool) (f : Form) : Form :=
  if tabOrEnter then
    let trimmed := Js.trim (fm_keywordInput f) in
    if Js.truthy_str trimmed && negb (Js.includes (fm_keywords f) trimmed)
    then setKeywords (fm_keywords f ++ [trimmed]) "" f
    else f
  else f.

Definition handleTopicKeyDown (tabOrEnter : bool) (f : Form) : Form :=
  if tabOrEnter then
    let trimmed := Js.trim (fm_topicInput f) in
    if Js.truthy_str trimmed && negb (Js.includes (fm_topics f) trimmed)
    then setTopics (fm_topics f ++ [trimmed]) "" f
    else f
  else f.

Definition removeKeyword (k : string) (f : Form) : Form :=
  setKeywords (List.filter (fun kw => negb (String.eqb kw k)) (fm_keywords f))
    (fm_keywordInput f) f.

Definition removeTopic (t : string) (f : Form) : Form :=
  setTopics (List.filter (fun top => negb (String.eqb top t)) (fm_topics f))
    (fm_topicInput f) f.

Definition filteredKeywords (existingKeywords : list string) (f : Form)
  : list string :=
  take 5
    (List.filter
       (fun k =>
          Js.str_includes (Js.toLowerCase k) (Js.toLowerCase (fm_keywordInput f))
          && negb (Js.includes (fm_keywords f) k))
       existingKeywords).

Definition filteredTopics (existingTopics : list string) (f : Form)
  : list string :=
  take 5
    (List.filter
       (fun t =>
          Js.str_includes (Js.toLowerCase t) (Js.toLowerCase (fm_topicInput f))
          && negb (Js.includes (fm_topics f) t))
       existingTopics).

(** The [onClick] of a suggestion. *)
Definition pickKeyword (s : string) (f : Form) : Form :=
  setKeywords (fm_keywords f ++ [s]) "" f.

Definition pickTopic (t : string) (f : Form) : Form :=
  setTopics (fm_topics f ++ [t]) "" f.

(** [currentYear] is [new Date().getFullYear()]. *)
Definition toggleYearUnknown (currentYear : Z) (f : Form) : Form :=
  match fm_year f with
  | YearUnknown => setYear (YearNum currentYear) f
  | YearNum _ => setYear YearUnknown f
  end.

(** *** Parts of a Paper 2 question *)

(** The names every object inherits from [Object.prototype]: looking one of
    them up in [nextLabelMap] finds the inherited member, which is truthy
    and not a string. *)
Definition inheritedNames : list string :=
  ["constructor"; "toString"; "toLocaleString"; "valueOf"; "hasOwnProperty";
   "isPrototypeOf"; "propertyIsEnumerable"; "__proto__"; "__defineGetter__";
   "__defineSetter__"; "__lookupGetter__"; "__lookupSetter__"].

Inductive Lookup :=
| Own (v : string)
| Inherited
| Undefined.

(** [nextLabelMap[l]] *)
Definition nextLabelMap (l : string) : Lookup :=
  if String.eqb l "a" then Own "b"
  else if String.eqb l "b" then Own "c"
  else if String.eqb l "c" then Own "d"
  else if String.eqb l "d" then Own "e"
  else if String.eqb l "e" then Own "f"
  else if Js.includes inheritedNames l then Inherited
  else Undefined.

(** [String.fromCharCode(lastLabel.charCodeAt(0) + 1)] for ASCII labels; the
    char code of an empty string is [NaN], which gives the character with
    code 0. *)
Definition nextChar (lastLabel : string) : string :=
  match lastLabel with
  | EmptyString => String (ascii_of_nat 0) EmptyString
  | String c _ => String (ascii_of_nat (nat_of_ascii c + 1)) EmptyString
  end.

(** [None] when the new label is not a string (the render that follows then
    fails on [label.toUpperCase()]). *)
Definition handleAddP2Part (now : Z) (f : Form) : option Form :=
  let lastLabel :=
    match last (fm_parts f) with Some p => label p | None => "" end in
  let newLabel :=
    match nextLabelMap lastLabel with
    | Own l => Some l
    | Inherited => None
    | Undefined => Some (nextChar lastLabel)
    end in
  match newLabel with
  | Some l =>
      let newPart :=
        {| part_id := pretty now; label := l;
           questionImage := None; answerImage := None |} in
      Some (setParts (fm_parts f ++ [newPart])
              (Z.of_nat (length (fm_parts f))) f)
  | None => None
  end.







(** *** Submission *)

(** The record handed to [onSave].  [now_id] and [now_created] are the two
    readings of [Date.now()]. *)
Definition handleSubmit (initialQuestion : option Question)
    (now_id now_created : Z) (f : Form) : Question :=
  let paper1 := paperType_eqb (fm_paperType f) Paper1 in
  {| id :=
       match initialQuestion with
       | Some q => if Js.truthy_str (id q) then id q else pretty now_id
       | None => pretty now_id
       end;
     createdAt :=
       match initialQuestion with
       | Some q => if (createdAt q =? 0)%Z then now_created else createdAt q
       | None => now_created
       end;
     keywords := fm_keywords f;
     topics := Some (fm_topics f);
     difficulty := fm_difficulty f;
     year := fm_year f;
     month := fm_month f;
     questionNumber := fm_questionNumber f;
     paperType := fm_paperType f;
     p1QuestionImage := if paper1 then Some (fm_p1QuestionImage f) else None;
     p1AnswerType := if paper1 then Some (fm_p1AnswerType f) else None;
     p1AnswerSelection :=
       if paper1 then Some (fm_p1AnswerSelection f) else None;
     p1AnswerImage := if paper1 then Some (fm_p1AnswerImage f) else None;
     parts := if paper1 then None else Some (fm_parts f) |}.

End AddQuestionModal.

(** * Vocabulary of the statements *)

Section Vocabulary.
Import Types App.

(** The tag part and the text/dropdown part of the filter callback. *)
Definition passesTagConstraints (f : FilterState) (q : Question) : bool :=
  matchesIncludedKeywords f q && matchesIncludedTopics f q
  && matchesExcludedKeywords f q && matchesExcludedTopics f q.

Definition passesTextAndCategorical (f : FilterState) (q : Question) : bool :=
  matchesSearch f q && matchesType f q && matchesYear f q
  && matchesDifficulty f q.

(** Every tag of [inc] is a tag of the record (or [inc] is empty). *)
Definition includes_all (inc tags : list string) : Prop :=
  inc = [] \/ forall k, k ∈ inc -> k ∈ tags.

(** No tag of [exc] is a tag of the record (or [exc] is empty). *)
Definition excludes_all (exc tags : list string) : Prop :=
  exc = [] \/ forall k, k ∈ exc -> k ∉ tags.



(** Sample data for the worked examples. *)
Definition question_with (i : string) (kws tps : list string) (y : Year)
  : Question :=
  {| id := i; createdAt := 0; keywords := kws; topics := Some tps;
     difficulty := Medium; year := y; month := May;
     questionNumber := Some "7b"; paperType := Paper1;
     p1QuestionImage := Some None; p1AnswerType := Some Selection;
     p1AnswerSelection := Some (Some AnsA); p1AnswerImage := Some None;
     parts := None |}.

(** No tag is both included and excluded, in either namespace. *)
Definition disjoint_tags (inc exc : list string) : Prop :=
  forall t, ~ (t ∈ inc /\ t ∈ exc).

Definition disjoint_filter (f : FilterState) : Prop :=
  disjoint_tags (includedKeywords f) (excludedKeywords f)
  /\ disjoint_tags (includedTopics f) (excludedTopics f).

(** The engine keeps every record under its own identifier (the key path
    of the object store is [id]). *)
Definition store_wf (s : gmap string Question) : Prop :=
  forall k q, s !! k = Some q -> id q = k.

(** All the records of a batch upserted, in order. *)
Definition put_all (s : gmap string Question) (qs : list Question)
  : gmap string Question :=
  fold_left (fun w q => <[id q := q]> w) qs s.

(** The error taxonomy of the specification, and what it asks of the
    rejections: the caller can tell from the rejection alone which kind of
    failure happened. *)
Inductive ErrorClass :=
| InitializationError
| ReadError
| WriteError
| TransactionError.

Definition taxonomy_respected (classify : Db.Rejection -> ErrorClass) : Prop :=
  (forall e s r, Db.open_fails e = true ->
     (Db.getAllQuestions e s).1 = Db.Rejected r ->
     classify r = InitializationError)
  /\ (forall e s r, Db.open_fails e = false ->
        (Db.getAllQuestions e s).1 = Db.Rejected r -> classify r = ReadError)
  /\ (forall q e s r, Db.open_fails e = false ->
        (Db.addQuestionToDB q e s).1 = Db.Rejected r -> classify r = WriteError)
  /\ (forall qs e s r, Db.open_fails e = false ->
        (Db.bulkUpdateQuestions qs e s).1 = Db.Rejected r ->
        classify r = TransactionError).

(** A record qualifies for the rule: it has one of the trigger keywords and
    does not have the target topic yet. *)
Definition qualifies (targetTopic : string) (kws : list string) (q : Question)
  : Prop :=
  Exists (fun k => k ∈ kws) (keywords q) /\ targetTopic ∉ topics_or_empty q.

(** Every field but [topics] is the same. *)
Definition same_except_topics (q q' : Question) : Prop :=
  id q' = id q /\ createdAt q' = createdAt q /\ keywords q' = keywords q
  /\ difficulty q' = difficulty q /\ year q' = year q /\ month q' = month q
  /\ questionNumber q' = questionNumber q /\ paperType q' = paperType q
  /\ p1QuestionImage q' = p1QuestionImage q /\ p1AnswerType q' = p1AnswerType q
  /\ p1AnswerSelection q' = p1AnswerSelection q
  /\ p1AnswerImage q' = p1AnswerImage q /\ parts q' = parts q.

(** [q'] is [q] with the topic appended at the end of its topics. *)
Definition tagged (targetTopic : string) (q q' : Question) : Prop :=
  topics q' = Some (topics_or_empty q ++ [targetTopic])
  /\ same_except_topics q q'.

(** The engine carries out a call that places a single request. *)
Definition carries_out (e : Db.Engine) : Prop :=
  Db.open_fails e = false /\ Db.request_error e 0 = None
  /\ Db.commit_error e = None.

(** The in-memory list shows the records of the store, in some order. *)
Definition coherent (qs : list Question) (s : gmap string Question) : Prop :=
  qs ≡ₚ Db.records s.

(** Newest first. *)
Definition not_older (a b : Question) : Prop := (createdAt b <= createdAt a)%Z.

(** The order of the year dropdown: a later year before an earlier one, any
    number before Unknown. *)
Definition year_before (a b : Year) : Prop :=
  match a, b with
  | YearNum x, YearNum y => (y < x)%Z
  | YearNum _, YearUnknown => True
  | YearUnknown, _ => False
  end.

(** Strictly ascending order of strings. *)
Definition string_lt (a b : string) : Prop := String.ltb a b = true.

(** Every record sits under its own identifier, so the identifiers [getAll]
    shows are pairwise distinct. *)
Definition unique_ids (s : gmap string Question) : Prop :=
  store_wf s /\ NoDup (id <$> Db.records s).

(** A string with no white space at either end. *)
Definition trimmed (s : string) : Prop := Js.trim s = s.


(** One event on the tag inputs of the question form. *)
Inductive form_tag_step (existingKeywords existingTopics : list string)
  : AddQuestionModal.Form -> AddQuestionModal.Form -> Prop :=
| form_type_keyword v f :
    form_tag_step existingKeywords existingTopics f
      (AddQuestionModal.setKeywords (AddQuestionModal.fm_keywords f) v f)
| form_type_topic v f :
    form_tag_step existingKeywords existingTopics f
      (AddQuestionModal.setTopics (AddQuestionModal.fm_topics f) v f)
| form_keyword_key b f :
    form_tag_step existingKeywords existingTopics f
      (AddQuestionModal.handleKeywordKeyDown b f)
| form_topic_key b f :
    form_tag_step existingKeywords existingTopics f
      (AddQuestionModal.handleTopicKeyDown b f)
| form_remove_keyword k f :
    form_tag_step existingKeywords existingTopics f
      (AddQuestionModal.removeKeyword k f)
| form_remove_topic t f :
    form_tag_step existingKeywords existingTopics f
      (AddQuestionModal.removeTopic t f)
| form_pick_keyword k f :
    AddQuestionModal.fm_keywordInput f <> "" ->
    k ∈ AddQuestionModal.filteredKeywords existingKeywords f ->
    form_tag_step existingKeywords existingTopics f
      (AddQuestionModal.pickKeyword k f)
| form_pick_topic t f :
    AddQuestionModal.fm_topicInput f <> "" ->
    t ∈ AddQuestionModal.filteredTopics existingTopics f ->
    form_tag_step existingKeywords existingTopics f
      (AddQuestionModal.pickTopic t f).



(** A record as the form writes it: a non-empty identifier, a non-zero
    creation time, topics present, and exactly the payload of its paper
    type, with no empty image reference. *)
Definition as_submitted (q : Question) : Prop :=
  id q <> "" /\ createdAt q <> 0%Z /\ is_Some (topics q)
  /\ match paperType q with
     | Paper1 =>
         parts q = None
         /\ is_Some (p1QuestionImage q) /\ p1QuestionImage q <> Some (Some "")
         /\ is_Some (p1AnswerType q) /\ is_Some (p1AnswerSelection q)
         /\ is_Some (p1AnswerImage q) /\ p1AnswerImage q <> Some (Some "")
     | Paper2_1b =>
         is_Some (parts q)
         /\ p1QuestionImage q = None /\ p1AnswerType q = None
         /\ p1AnswerSelection q = None /\ p1AnswerImage q = None
     end.

(** A form to start the worked examples from: the form as it opens for a
    new question at time [now]. *)
Definition fresh_form (now : Z) : AddQuestionModal.Form :=
  AddQuestionModal.openForm None None now 2025
    {| AddQuestionModal.fm_step := 1;
       AddQuestionModal.fm_keywords := [];
       AddQuestionModal.fm_keywordInput := "";
       AddQuestionModal.fm_topics := [];
       AddQuestionModal.fm_topicInput := "";
       AddQuestionModal.fm_year := YearNum 2025;
       AddQuestionModal.fm_month := May;
       AddQuestionModal.fm_questionNumber := Some "";
       AddQuestionModal.fm_paperType := Paper1;
       AddQuestionModal.fm_difficulty := Medium;
       AddQuestionModal.fm_p1QuestionImage := None;
       AddQuestionModal.fm_p1AnswerType := Selection;
       AddQuestionModal.fm_p1AnswerSelection := None;
       AddQuestionModal.fm_p1AnswerImage := None;
       AddQuestionModal.fm_parts := [];
       AddQuestionModal.fm_activePartIndex := 0 |}.

(** [q] with another creation time. *)
Definition withCreatedAt (t : Z) (q : Question) : Question :=
  {| id := id q; createdAt := t; keywords := keywords q; topics := topics q;
     difficulty := difficulty q; year := year q; month := month q;
     questionNumber := questionNumber q; paperType := paperType q;
     p1QuestionImage := p1QuestionImage q; p1AnswerType := p1AnswerType q;
     p1AnswerSelection := p1AnswerSelection q;
     p1AnswerImage := p1AnswerImage q; parts := parts q |}.

(** The study session points inside the list and lists no part twice. *)
Definition in_range (qs : list Question) (st : StudyMode.State) : Prop :=
  (0 <= StudyMode.currentIndex st < Z.of_nat (length qs))%Z
  /\ NoDup (StudyMode.revealedParts st).

End Vocabulary.

(** * Properties *)

(** ** Built-ins *)

Section JsFacts.

Lemma includes_elem_of (l : list string) (x : string) :
  Js.includes l x = true <-> x ∈ l.
Proof.
  unfold Js.includes. rewrite existsb_exists, list_elem_of_In. split.
  - intros (y & Hy & Heq). apply String.eqb_eq in Heq. now subst.
  - intros Hx. exists x. split; [done | apply String.eqb_refl].
Qed.

Lemma includes_false (l : list string) (x : string) :
  Js.includes l x = false <-> x ∉ l.
Proof.
  rewrite <- includes_elem_of. destruct (Js.includes l x); split; congruence.
Qed.

Lemma some_true {A} (f : A -> bool) (l : list A) :
  Js.some f l = true <-> exists x, x ∈ l /\ f x = true.
Proof.
  unfold Js.some. rewrite existsb_exists.
  split; intros (x & Hx & Hf); exists x; split; try done;
    by apply list_elem_of_In.
Qed.

Lemma every_true {A} (f : A -> bool) (l : list A) :
  Js.every f l = true <-> forall x, x ∈ l -> f x = true.
Proof.
  unfold Js.every. rewrite forallb_forall.
  split; intros H x Hx; apply H; by apply list_elem_of_In.
Qed.

Lemma length_zero {A} (l : list A) : (length l =? 0)%nat = true <-> l = [].
Proof. destruct l; simpl; split; congruence. Qed.





Lemma truthy_str_true (s : string) : Js.truthy_str s = true <-> s <> "".
Proof.
  unfold Js.truthy_str. rewrite negb_true_iff.
  destruct (String.eqb_spec s ""); split; congruence.
Qed.

End JsFacts.

(** ** Query engine *)

Section QueryEngine.
Import Types App.

Lemma passesFilter_split (f : FilterState) (q : Question) :
  passesFilter f q = passesTextAndCategorical f q && passesTagConstraints f q.
Proof.
  unfold passesFilter, passesTextAndCategorical, passesTagConstraints.
  by rewrite !andb_assoc.
Qed.

Lemma filteredQuestions_elem_of (qs : list Question) (f : FilterState) q :
  q ∈ filteredQuestions qs f <->
  q ∈ qs /\ passesTextAndCategorical f q = true /\ passesTagConstraints f q = true.
Proof.
  unfold filteredQuestions.
  rewrite list_elem_of_In, filter_In, <- list_elem_of_In, passesFilter_split.
  by rewrite andb_true_iff.
Qed.

Lemma included_spec (inc tags : list string) :
  (length inc =? 0)%nat || Js.every (fun k => Js.includes tags k) inc = true
  <-> includes_all inc tags.
Proof.
  unfold includes_all. rewrite orb_true_iff, length_zero, every_true.
  by setoid_rewrite includes_elem_of.
Qed.

Lemma excluded_spec (exc tags : list string) :
  (length exc =? 0)%nat || negb (Js.some (fun k => Js.includes exc k) tags) = true
  <-> excludes_all exc tags.
Proof.
  unfold excludes_all. rewrite orb_true_iff, length_zero, negb_true_iff.
  split; (intros [H | H]; [by left | right]).
  - intros k Hk Hin.
    assert (Js.some (fun k => Js.includes exc k) tags = true) as Hs; [| congruence].
    apply some_true. exists k. by rewrite includes_elem_of.
  - destruct (Js.some _ tags) eqn:Hs; [| done].
    apply some_true in Hs as (k & Hk & Hin). apply includes_elem_of in Hin.
    by destruct (H k Hin).
Qed.

End QueryEngine.

Section QueryEngineClaims.
Import Types App.

Lemma passesTagConstraints_spec (f : FilterState) (q : Question) :
  passesTagConstraints f q = true <->
  includes_all (includedKeywords f) (keywords q)
  /\ excludes_all (excludedKeywords f) (keywords q)
  /\ includes_all (includedTopics f) (topics_or_empty q)
  /\ excludes_all (excludedTopics f) (topics_or_empty q).
Proof.
  unfold passesTagConstraints, matchesIncludedKeywords, matchesIncludedTopics,
    matchesExcludedKeywords, matchesExcludedTopics.
  rewrite !andb_true_iff, !included_spec, !excluded_spec. tauto.
Qed.

Lemma tag_failure (f : FilterState) (q : Question) :
  ~ passesTagConstraints f q = true ->
  passesTagConstraints f q = false /\ passesFilter f q = false.
Proof.
  rewrite passesFilter_split. destruct (passesTagConstraints f q); [done |].
  by rewrite andb_false_r.
Qed.

(** C1: a record passes the tag constraints exactly when the included
    keywords are all among its keywords (or there is none), no excluded
    keyword is among its keywords (or there is none), and likewise for the
    included and excluded topics against its topics.  With included keywords
    [A; B] and excluded keyword [C]: keywords [A; B; D] pass, keywords [A]
    fail, keywords [A; B; C] fail. *)
Theorem C1_tag_constraints :
  (forall (q : Question) (f : FilterState),
     passesTagConstraints f q = true <->
     includes_all (includedKeywords f) (keywords q)
     /\ excludes_all (excludedKeywords f) (keywords q)
     /\ includes_all (includedTopics f) (topics_or_empty q)
     /\ excludes_all (excludedTopics f) (topics_or_empty q))
  /\ (forall (A B C D : string) (f : FilterState) (q : Question),
        includedKeywords f = [A; B] -> excludedKeywords f = [C] ->
        includedTopics f = [] -> excludedTopics f = [] ->
        (keywords q = [A; B; D] -> C <> A -> C <> B -> C <> D ->
         passesTagConstraints f q = true)
        /\ (keywords q = [A] -> A <> B ->
            passesTagConstraints f q = false /\ passesFilter f q = false)
        /\ (keywords q = [A; B; C] ->
            passesTagConstraints f q = false /\ passesFilter f q = false)).
Proof.
  split; [exact (fun q f => passesTagConstraints_spec f q) |].
  intros A B C D f q HiK HeK HiT HeT.
  split; [| split].
  - intros Hk HA HB HD. apply passesTagConstraints_spec.
    rewrite HiK, HeK, HiT, HeT, Hk. repeat split; try by left.
    + right. intros k. rewrite !elem_of_cons. tauto.
    + right. intros k. rewrite !elem_of_cons, !elem_of_nil.
      intros [-> | []] [? | [? | [? | []]]]; congruence.
  - intros Hk HAB. apply tag_failure.
    rewrite passesTagConstraints_spec, HiK, Hk.
    intros ([Hi | Hi] & _); [discriminate |].
    specialize (Hi B). rewrite !elem_of_cons, elem_of_nil in Hi.
    destruct Hi as [-> | []]; [tauto | done].
  - intros Hk. apply tag_failure.
    rewrite passesTagConstraints_spec, HeK, Hk.
    intros (_ & [He | He] & _); [discriminate |].
    apply (He C); rewrite !elem_of_cons; tauto.
Qed.

Lemma C1_witness :
  let f := setKeywords ["A"; "B"] ["C"] initialFilter in
  passesTagConstraints f (question_with "q1" ["A"; "B"; "D"] [] (YearNum 2020)) = true
  /\ passesTagConstraints f (question_with "q2" ["A"] [] (YearNum 2020)) = false
  /\ passesTagConstraints f (question_with "q3" ["A"; "B"; "C"] [] (YearNum 2020)) = false.
Proof.
  intros f.
  pose proof (fun q => proj2 C1_tag_constraints "A" "B" "C" "D" f q
                        eq_refl eq_refl eq_refl eq_refl) as H.
  split; [| split].
  - by apply (proj1 (H _)).
  - by apply (proj1 (proj2 (H _))).
  - by apply (proj2 (proj2 (H _))).
Defined.












Example search_ignores_case :
  filteredQuestions
    [question_with "q1" ["Simple Harmonic Motion"] [] (YearNum 2019);
     question_with "q2" ["optics"] ["C.3"] YearUnknown]
    {| includedKeywords := []; excludedKeywords := [];
       includedTopics := []; excludedTopics := ["C.3"];
       f_year := YearAll; f_paperType := All; f_difficulty := Only Medium;
       searchQuery := "HARM" |}
  = [question_with "q1" ["Simple Harmonic Motion"] [] (YearNum 2019)].
Proof. reflexivity. Qed.

End QueryEngineClaims.

(** ** Tag state manager *)

Section TagState.
Import Types App.

Lemma elem_of_without (k u : string) (l : list string) :
  u ∈ without k l <-> u ∈ l /\ u <> k.
Proof.
  unfold without. rewrite list_elem_of_In, filter_In, <- list_elem_of_In.
  rewrite negb_true_iff. destruct (String.eqb_spec u k); split; intros [? ?];
    split; congruence.
Qed.

Lemma without_id (k : string) (l : list string) : k ∉ l -> without k l = l.
Proof.
  induction l as [| x l IH]; [done |]. rewrite not_elem_of_cons.
  intros [Hx Hl]. simpl. destruct (String.eqb_spec x k); [congruence |].
  simpl. by rewrite IH.
Qed.

Lemma without_snoc (k : string) (l : list string) :
  without k (l ++ [k]) = without k l.
Proof.
  unfold without. rewrite List.filter_app. simpl.
  by rewrite String.eqb_refl, app_nil_r.
Qed.

Lemma setKeywords_id (f : FilterState) :
  setKeywords (includedKeywords f) (excludedKeywords f) f = f.
Proof. by destruct f. Qed.

Lemma setTopics_id (f : FilterState) :
  setTopics (includedTopics f) (excludedTopics f) f = f.
Proof. by destruct f. Qed.

(** What one toggle does to the two lists of its namespace. *)
Lemma toggleKeywordFilter_lists (k : string) (f : FilterState) :
  let f' := toggleKeywordFilter k f in
  (k ∈ includedKeywords f ->
   includedKeywords f' = without k (includedKeywords f)
   /\ excludedKeywords f' = excludedKeywords f ++ [k])
  /\ (k ∉ includedKeywords f -> k ∈ excludedKeywords f ->
      includedKeywords f' = includedKeywords f
      /\ excludedKeywords f' = without k (excludedKeywords f))
  /\ (k ∉ includedKeywords f -> k ∉ excludedKeywords f ->
      includedKeywords f' = includedKeywords f ++ [k]
      /\ excludedKeywords f' = excludedKeywords f).
Proof.
  unfold toggleKeywordFilter.
  destruct (Js.includes (includedKeywords f) k) eqn:Hi;
    [apply includes_elem_of in Hi | apply includes_false in Hi];
    [| destruct (Js.includes (excludedKeywords f) k) eqn:He;
       [apply includes_elem_of in He | apply includes_false in He]];
    simpl; repeat split; intros; done.
Qed.

Lemma toggleTopicFilter_lists (t : string) (f : FilterState) :
  let f' := toggleTopicFilter t f in
  (t ∈ includedTopics f ->
   includedTopics f' = without t (includedTopics f)
   /\ excludedTopics f' = excludedTopics f ++ [t])
  /\ (t ∉ includedTopics f -> t ∈ excludedTopics f ->
      includedTopics f' = includedTopics f
      /\ excludedTopics f' = without t (excludedTopics f))
  /\ (t ∉ includedTopics f -> t ∉ excludedTopics f ->
      includedTopics f' = includedTopics f ++ [t]
      /\ excludedTopics f' = excludedTopics f).
Proof.
  unfold toggleTopicFilter.
  destruct (Js.includes (includedTopics f) t) eqn:Hi;
    [apply includes_elem_of in Hi | apply includes_false in Hi];
    [| destruct (Js.includes (excludedTopics f) t) eqn:He;
       [apply includes_elem_of in He | apply includes_false in He]];
    simpl; repeat split; intros; done.
Qed.

(** A toggle in one namespace leaves every other field alone. *)
Lemma toggleKeywordFilter_frame (k : string) (f : FilterState) :
  let f' := toggleKeywordFilter k f in
  includedTopics f' = includedTopics f /\ excludedTopics f' = excludedTopics f
  /\ f_year f' = f_year f /\ f_paperType f' = f_paperType f
  /\ f_difficulty f' = f_difficulty f /\ searchQuery f' = searchQuery f.
Proof.
  unfold toggleKeywordFilter.
  destruct (Js.includes (includedKeywords f) k);
    [| destruct (Js.includes (excludedKeywords f) k)]; by simpl.
Qed.

Lemma toggleTopicFilter_frame (t : string) (f : FilterState) :
  let f' := toggleTopicFilter t f in
  includedKeywords f' = includedKeywords f
  /\ excludedKeywords f' = excludedKeywords f
  /\ f_year f' = f_year f /\ f_paperType f' = f_paperType f
  /\ f_difficulty f' = f_difficulty f /\ searchQuery f' = searchQuery f.
Proof.
  unfold toggleTopicFilter.
  destruct (Js.includes (includedTopics f) t);
    [| destruct (Js.includes (excludedTopics f) t)]; by simpl.
Qed.

(** The three-way step on a pair of lists, as both handlers perform it. *)
Lemma tri_step_disjoint (k : string) (inc exc inc' exc' : list string) :
  disjoint_tags inc exc ->
  (k ∈ inc -> inc' = without k inc /\ exc' = exc ++ [k]) ->
  (k ∉ inc -> k ∈ exc -> inc' = inc /\ exc' = without k exc) ->
  (k ∉ inc -> k ∉ exc -> inc' = inc ++ [k] /\ exc' = exc) ->
  disjoint_tags inc' exc'.
Proof.
  intros Hd H1 H2 H3 u [Hu1 Hu2].
  destruct (decide (k ∈ inc)) as [Hi | Hi].
  - destruct (H1 Hi) as [-> ->].
    apply elem_of_without in Hu1 as [Hu1 Hne].
    apply elem_of_app in Hu2 as [Hu2 | Hu2]; [by apply (Hd u) |].
    by apply list_elem_of_singleton in Hu2.
  - destruct (decide (k ∈ exc)) as [He | He].
    + destruct (H2 Hi He) as [-> ->].
      apply elem_of_without in Hu2 as [Hu2 _]. by apply (Hd u).
    + destruct (H3 Hi He) as [-> ->].
      apply elem_of_app in Hu1 as [Hu1 | Hu1]; [by apply (Hd u) |].
      apply list_elem_of_singleton in Hu1 as ->. done.
Qed.

Lemma toggle_disjoint (c : Toggle) (f : FilterState) :
  disjoint_filter f -> disjoint_filter (toggle c f).
Proof.
  intros [Hk Ht]. destruct c as [k | t]; simpl.
  - destruct (toggleKeywordFilter_lists k f) as (H1 & H2 & H3).
    destruct (toggleKeywordFilter_frame k f) as (E1 & E2 & _).
    split.
    + exact (tri_step_disjoint k _ _ _ _ Hk H1 H2 H3).
    + unfold disjoint_tags. by rewrite E1, E2.
  - destruct (toggleTopicFilter_lists t f) as (H1 & H2 & H3).
    destruct (toggleTopicFilter_frame t f) as (E1 & E2 & _).
    split.
    + unfold disjoint_tags. by rewrite E1, E2.
    + exact (tri_step_disjoint t _ _ _ _ Ht H1 H2 H3).
Qed.

Lemma toggles_disjoint (cs : list Toggle) (f : FilterState) :
  disjoint_filter f -> disjoint_filter (toggles cs f).
Proof.
  revert f. induction cs as [| c cs IH]; intros f Hf; [done |].
  simpl. apply IH. by apply toggle_disjoint.
Qed.

Lemma initialFilter_disjoint : disjoint_filter initialFilter.
Proof. split; intros t [H _]; by apply elem_of_nil in H. Qed.

(** C5: starting from empty included and excluded lists, after any sequence
    of toggles no tag is in both the included and the excluded list of its
    namespace; every single toggle preserves that. *)
Theorem C5_disjointness :
  (forall (cs : list Toggle) (t : string),
     let f := toggles cs initialFilter in
     ~ (t ∈ includedKeywords f /\ t ∈ excludedKeywords f)
     /\ ~ (t ∈ includedTopics f /\ t ∈ excludedTopics f))
  /\ (forall (c : Toggle) (f : FilterState),
        disjoint_filter f -> disjoint_filter (toggle c f)).
Proof.
  split; [| exact toggle_disjoint].
  intros cs t f.
  destruct (toggles_disjoint cs initialFilter initialFilter_disjoint) as [Hk Ht].
  split; [apply Hk | apply Ht].
Qed.

Lemma C5_witness :
  disjoint_filter
    (toggle (ToggleKeyword "waves")
       (toggle (ToggleKeyword "waves") initialFilter)).
Proof.
  apply (proj2 C5_disjointness), (proj2 C5_disjointness).
  exact initialFilter_disjoint.
Defined.

(** The transition rule on a pair of lists. *)
Lemma tri_step_rule (k : string) (inc exc inc' exc' : list string) :
  disjoint_tags inc exc ->
  (k ∈ inc -> inc' = without k inc /\ exc' = exc ++ [k]) ->
  (k ∉ inc -> k ∈ exc -> inc' = inc /\ exc' = without k exc) ->
  (k ∉ inc -> k ∉ exc -> inc' = inc ++ [k] /\ exc' = exc) ->
  (k ∈ inc ->
   (k ∉ inc') /\ k ∈ exc' /\ inc' = without k inc /\ exc' = exc ++ [k])
  /\ (k ∈ exc ->
      (k ∉ inc') /\ (k ∉ exc') /\ inc' = inc /\ exc' = without k exc)
  /\ (k ∉ inc -> k ∉ exc ->
      k ∈ inc' /\ (k ∉ exc') /\ inc' = inc ++ [k] /\ exc' = exc).
Proof.
  intros Hd H1 H2 H3. split; [| split].
  - intros Hi. destruct (H1 Hi) as [-> ->]. repeat split.
    + rewrite elem_of_without. tauto.
    + apply elem_of_app. right. by apply list_elem_of_singleton.
  - intros He. assert (k ∉ inc) as Hi by (intros Hi; by apply (Hd k)).
    destruct (H2 Hi He) as [-> ->]. repeat split; [done |].
    rewrite elem_of_without. tauto.
  - intros Hi He. destruct (H3 Hi He) as [-> ->]. repeat split; [| done].
    apply elem_of_app. right. by apply list_elem_of_singleton.
Qed.

Lemma toggleKeywordFilter_cycle (k : string) (f : FilterState) :
  k ∉ includedKeywords f -> k ∉ excludedKeywords f ->
  toggleKeywordFilter k (toggleKeywordFilter k (toggleKeywordFilter k f)) = f.
Proof.
  intros Hi He. unfold toggleKeywordFilter at 3.
  rewrite (proj2 (includes_false _ _) Hi), (proj2 (includes_false _ _) He).
  unfold toggleKeywordFilter at 2. cbn [includedKeywords excludedKeywords setKeywords].
  assert (Js.includes (includedKeywords f ++ [k]) k = true) as ->.
  { apply includes_elem_of, elem_of_app. right. by apply list_elem_of_singleton. }
  unfold toggleKeywordFilter. cbn [includedKeywords excludedKeywords setKeywords].
  rewrite without_snoc, (without_id _ _ Hi).
  rewrite (proj2 (includes_false _ _) Hi).
  assert (Js.includes (excludedKeywords f ++ [k]) k = true) as ->.
  { apply includes_elem_of, elem_of_app. right. by apply list_elem_of_singleton. }
  rewrite without_snoc, (without_id _ _ He). by destruct f.
Qed.

Lemma toggleTopicFilter_cycle (t : string) (f : FilterState) :
  t ∉ includedTopics f -> t ∉ excludedTopics f ->
  toggleTopicFilter t (toggleTopicFilter t (toggleTopicFilter t f)) = f.
Proof.
  intros Hi He. unfold toggleTopicFilter at 3.
  rewrite (proj2 (includes_false _ _) Hi), (proj2 (includes_false _ _) He).
  unfold toggleTopicFilter at 2. cbn [includedTopics excludedTopics setTopics].
  assert (Js.includes (includedTopics f ++ [t]) t = true) as ->.
  { apply includes_elem_of, elem_of_app. right. by apply list_elem_of_singleton. }
  unfold toggleTopicFilter. cbn [includedTopics excludedTopics setTopics].
  rewrite without_snoc, (without_id _ _ Hi).
  rewrite (proj2 (includes_false _ _) Hi).
  assert (Js.includes (excludedTopics f ++ [t]) t = true) as ->.
  { apply includes_elem_of, elem_of_app. right. by apply list_elem_of_singleton. }
  rewrite without_snoc, (without_id _ _ He). by destruct f.
Qed.

Lemma toggleKeywordFilter_states (k : string) (f : FilterState) :
  k ∉ includedKeywords f -> k ∉ excludedKeywords f ->
  getTagState k keyword f = neutral
  /\ getTagState k keyword (toggleKeywordFilter k f) = include
  /\ getTagState k keyword (toggleKeywordFilter k (toggleKeywordFilter k f))
     = exclude.
Proof.
  intros Hi He.
  assert (forall l, Js.includes (l ++ [k]) k = true) as Hlast.
  { intros l. apply includes_elem_of, elem_of_app. right.
    by apply list_elem_of_singleton. }
  assert (forall l, Js.includes (without k l) k = false) as Hgone.
  { intros l. apply includes_false. rewrite elem_of_without. tauto. }
  apply includes_false in Hi, He.
  unfold getTagState, toggleKeywordFilter. rewrite Hi, He. simpl.
  rewrite !Hlast. simpl. by rewrite Hgone, Hlast.
Qed.

Lemma toggleTopicFilter_states (t : string) (f : FilterState) :
  t ∉ includedTopics f -> t ∉ excludedTopics f ->
  getTagState t topic f = neutral
  /\ getTagState t topic (toggleTopicFilter t f) = include
  /\ getTagState t topic (toggleTopicFilter t (toggleTopicFilter t f))
     = exclude.
Proof.
  intros Hi He.
  assert (forall l, Js.includes (l ++ [t]) t = true) as Hlast.
  { intros l. apply includes_elem_of, elem_of_app. right.
    by apply list_elem_of_singleton. }
  assert (forall l, Js.includes (without t l) t = false) as Hgone.
  { intros l. apply includes_false. rewrite elem_of_without. tauto. }
  apply includes_false in Hi, He.
  unfold getTagState, toggleTopicFilter. rewrite Hi, He. simpl.
  rewrite !Hlast. simpl. by rewrite Hgone, Hlast.
Qed.

(** C6: in a state whose included and excluded lists of a namespace are
    disjoint, one toggle of a tag in that namespace moves it from included
    to excluded, or removes it from excluded, or adds it to included when it
    was in neither; three toggles of a neutral tag give back the state they
    started from.  Both namespaces. *)
Theorem C6_toggle_rule (k : string) (f : FilterState) :
  (disjoint_tags (includedKeywords f) (excludedKeywords f) ->
   let f' := toggleKeywordFilter k f in
   (k ∈ includedKeywords f ->
    (k ∉ includedKeywords f') /\ k ∈ excludedKeywords f'
    /\ includedKeywords f' = without k (includedKeywords f)
    /\ excludedKeywords f' = excludedKeywords f ++ [k])
   /\ (k ∈ excludedKeywords f ->
       (k ∉ includedKeywords f') /\ (k ∉ excludedKeywords f')
       /\ includedKeywords f' = includedKeywords f
       /\ excludedKeywords f' = without k (excludedKeywords f))
   /\ (k ∉ includedKeywords f -> k ∉ excludedKeywords f ->
       k ∈ includedKeywords f' /\ (k ∉ excludedKeywords f')
       /\ includedKeywords f' = includedKeywords f ++ [k]
       /\ excludedKeywords f' = excludedKeywords f)
   /\ (k ∉ includedKeywords f -> k ∉ excludedKeywords f ->
       getTagState k keyword f = neutral
       /\ getTagState k keyword f' = include
       /\ getTagState k keyword (toggleKeywordFilter k f') = exclude
       /\ toggleKeywordFilter k (toggleKeywordFilter k f') = f))
  /\ (disjoint_tags (includedTopics f) (excludedTopics f) ->
      let f' := toggleTopicFilter k f in
      (k ∈ includedTopics f ->
       (k ∉ includedTopics f') /\ k ∈ excludedTopics f'
       /\ includedTopics f' = without k (includedTopics f)
       /\ excludedTopics f' = excludedTopics f ++ [k])
      /\ (k ∈ excludedTopics f ->
          (k ∉ includedTopics f') /\ (k ∉ excludedTopics f')
          /\ includedTopics f' = includedTopics f
          /\ excludedTopics f' = without k (excludedTopics f))
      /\ (k ∉ includedTopics f -> k ∉ excludedTopics f ->
          k ∈ includedTopics f' /\ (k ∉ excludedTopics f')
          /\ includedTopics f' = includedTopics f ++ [k]
          /\ excludedTopics f' = excludedTopics f)
      /\ (k ∉ includedTopics f -> k ∉ excludedTopics f ->
          getTagState k topic f = neutral
          /\ getTagState k topic f' = include
          /\ getTagState k topic (toggleTopicFilter k f') = exclude
          /\ toggleTopicFilter k (toggleTopicFilter k f') = f)).
Proof.
  split; intros Hd; cbv zeta.
  - destruct (toggleKeywordFilter_lists k f) as (H1 & H2 & H3).
    destruct (tri_step_rule k _ _ _ _ Hd H1 H2 H3) as (R1 & R2 & R3).
    split; [exact R1 |]. split; [exact R2 |]. split; [exact R3 |].
    intros Hi He. destruct (toggleKeywordFilter_states k f Hi He) as (S0 & S1 & S2).
    repeat split; try done. by apply toggleKeywordFilter_cycle.
  - destruct (toggleTopicFilter_lists k f) as (H1 & H2 & H3).
    destruct (tri_step_rule k _ _ _ _ Hd H1 H2 H3) as (R1 & R2 & R3).
    split; [exact R1 |]. split; [exact R2 |]. split; [exact R3 |].
    intros Hi He. destruct (toggleTopicFilter_states k f Hi He) as (S0 & S1 & S2).
    repeat split; try done. by apply toggleTopicFilter_cycle.
Qed.

Lemma C6_witness :
  let f := setKeywords ["forces"] ["optics"] initialFilter in
  toggleKeywordFilter "waves"
    (toggleKeywordFilter "waves" (toggleKeywordFilter "waves" f)) = f
  /\ excludedKeywords (toggleKeywordFilter "forces" f) = ["optics"; "forces"].
Proof.
  intros f.
  assert (disjoint_tags (includedKeywords f) (excludedKeywords f)) as Hd.
  { intros t. simpl. rewrite !list_elem_of_singleton. by intros [-> [=]]. }
  split.
  - apply (proj1 (C6_toggle_rule "waves" f) Hd); simpl;
      rewrite list_elem_of_singleton; discriminate.
  - apply (proj1 (C6_toggle_rule "forces" f) Hd). simpl.
    by apply list_elem_of_singleton.
Defined.

(** Tags other than the toggled one keep their memberships. *)
Lemma tri_step_frame (k u : string) (inc exc inc' exc' : list string) :
  u <> k ->
  (k ∈ inc -> inc' = without k inc /\ exc' = exc ++ [k]) ->
  (k ∉ inc -> k ∈ exc -> inc' = inc /\ exc' = without k exc) ->
  (k ∉ inc -> k ∉ exc -> inc' = inc ++ [k] /\ exc' = exc) ->
  (u ∈ inc' <-> u ∈ inc) /\ (u ∈ exc' <-> u ∈ exc).
Proof.
  intros Hne H1 H2 H3.
  destruct (decide (k ∈ inc)) as [Hi | Hi];
    [destruct (H1 Hi) as [-> ->]
    | destruct (decide (k ∈ exc)) as [He | He];
      [destruct (H2 Hi He) as [-> ->] | destruct (H3 Hi He) as [-> ->]]];
    rewrite ?elem_of_without, ?elem_of_app, ?list_elem_of_singleton; tauto.
Qed.

Lemma getTagState_ext (u : string) (ty : TagType) (f f' : FilterState) :
  (u ∈ includedKeywords f' <-> u ∈ includedKeywords f) ->
  (u ∈ excludedKeywords f' <-> u ∈ excludedKeywords f) ->
  (u ∈ includedTopics f' <-> u ∈ includedTopics f) ->
  (u ∈ excludedTopics f' <-> u ∈ excludedTopics f) ->
  getTagState u ty f' = getTagState u ty f.
Proof.
  intros HiK HeK HiT HeT.
  assert (forall l l' : list string,
            (u ∈ l' <-> u ∈ l) -> Js.includes l' u = Js.includes l u) as Hinc.
  { intros l l' H. destruct (Js.includes l u) eqn:E.
    - apply includes_elem_of. apply H. by apply includes_elem_of.
    - apply includes_false. rewrite H. by apply includes_false. }
  unfold getTagState. destruct ty.
  - by rewrite (Hinc _ _ HiK), (Hinc _ _ HeK).
  - by rewrite (Hinc _ _ HiT), (Hinc _ _ HeT).
Qed.

(** C10: toggling a tag [t] leaves the membership of every other tag [u] in
    the included and excluded lists of that namespace as it was, hence its
    classification too, and leaves the lists of the other namespace (and the
    search text and the dropdowns) untouched. *)
Theorem C10_toggle_frame (t : string) (f : FilterState) :
  (let f' := toggleKeywordFilter t f in
   (forall u, u <> t ->
      (u ∈ includedKeywords f' <-> u ∈ includedKeywords f)
      /\ (u ∈ excludedKeywords f' <-> u ∈ excludedKeywords f)
      /\ getTagState u keyword f' = getTagState u keyword f)
   /\ includedTopics f' = includedTopics f
   /\ excludedTopics f' = excludedTopics f
   /\ (forall v, getTagState v topic f' = getTagState v topic f)
   /\ f_year f' = f_year f /\ f_paperType f' = f_paperType f
   /\ f_difficulty f' = f_difficulty f /\ searchQuery f' = searchQuery f)
  /\ (let f' := toggleTopicFilter t f in
      (forall u, u <> t ->
         (u ∈ includedTopics f' <-> u ∈ includedTopics f)
         /\ (u ∈ excludedTopics f' <-> u ∈ excludedTopics f)
         /\ getTagState u topic f' = getTagState u topic f)
      /\ includedKeywords f' = includedKeywords f
      /\ excludedKeywords f' = excludedKeywords f
      /\ (forall v, getTagState v keyword f' = getTagState v keyword f)
      /\ f_year f' = f_year f /\ f_paperType f' = f_paperType f
      /\ f_difficulty f' = f_difficulty f /\ searchQuery f' = searchQuery f).
Proof.
  split; cbv zeta.
  - destruct (toggleKeywordFilter_lists t f) as (H1 & H2 & H3).
    destruct (toggleKeywordFilter_frame t f) as (E1 & E2 & E3 & E4 & E5 & E6).
    split; [| repeat split; try done].
    + intros u Hne.
      destruct (tri_step_frame t u _ _ _ _ Hne H1 H2 H3) as [Mi Me].
      split; [done |]. split; [done |].
      apply getTagState_ext; by rewrite ?E1, ?E2.
    + intros v. unfold getTagState. by rewrite E1, E2.
  - destruct (toggleTopicFilter_lists t f) as (H1 & H2 & H3).
    destruct (toggleTopicFilter_frame t f) as (E1 & E2 & E3 & E4 & E5 & E6).
    split; [| repeat split; try done].
    + intros u Hne.
      destruct (tri_step_frame t u _ _ _ _ Hne H1 H2 H3) as [Mi Me].
      split; [done |]. split; [done |].
      apply getTagState_ext; by rewrite ?E1, ?E2.
    + intros v. unfold getTagState. by rewrite E1, E2.
Qed.

Lemma C10_witness :
  let f := setKeywords ["forces"] ["optics"] initialFilter in
  getTagState "forces" keyword (toggleKeywordFilter "waves" f) = include
  /\ getTagState "optics" keyword (toggleKeywordFilter "waves" f) = exclude.
Proof.
  intros f.
  destruct (proj1 (C10_toggle_frame "waves" f)) as [Hk _].
  split.
  - destruct (Hk "forces") as (_ & _ & ->); [discriminate | reflexivity].
  - destruct (Hk "optics") as (_ & _ & ->); [discriminate | reflexivity].
Defined.

Example toggles_example :
  let f := toggles [ToggleKeyword "a"; ToggleKeyword "b"; ToggleKeyword "a";
                    ToggleTopic "a"] initialFilter in
  includedKeywords f = ["b"] /\ excludedKeywords f = ["a"]
  /\ includedTopics f = ["a"] /\ excludedTopics f = [].
Proof. by vm_compute. Qed.

End TagState.

(** ** Record store *)

Section RecordStore.
Import Types Db.

(** *** What each wrapper does, case by case *)

(** The wrappers with a single request all unfold the same way: the open
    may fail, then the request, then the commit. *)
Ltac single_request :=
  unfold await, initDB, in_transaction, transaction;
  destruct (open_fails _); [done |]; simpl;
  destruct (request_error _ 0); [done |];
  by destruct (commit_error _).

Lemma getAllQuestions_run (e : Engine) (s : Store) :
  getAllQuestions e s =
  if open_fails e then (Rejected (RejString "IndexedDB error"), s)
  else match request_error e 0 with
       | Some err => (Rejected (RejError (Some err)), s)
       | None => (Resolved (records s), s)
       end.
Proof.
  unfold getAllQuestions. single_request.
Qed.

Lemma addQuestionToDB_run (q : Question) (e : Engine) (s : Store) :
  addQuestionToDB q e s =
  if open_fails e then (Rejected (RejString "IndexedDB error"), s)
  else match request_error e 0 with
       | Some err => (Rejected (RejError (Some err)), s)
       | None =>
           match commit_error e with
           | Some _ => (Resolved tt, s)
           | None => (Resolved tt, <[id q := q]> s)
           end
       end.
Proof.
  unfold addQuestionToDB. single_request.
Qed.

Lemma deleteQuestionFromDB_run (k : string) (e : Engine) (s : Store) :
  deleteQuestionFromDB k e s =
  if open_fails e then (Rejected (RejString "IndexedDB error"), s)
  else match request_error e 0 with
       | Some err => (Rejected (RejError (Some err)), s)
       | None =>
           match commit_error e with
           | Some _ => (Resolved tt, s)
           | None => (Resolved tt, delete k s)
           end
       end.
Proof.
  unfold deleteQuestionFromDB. single_request.
Qed.

Lemma clearAllQuestions_run (e : Engine) (s : Store) :
  clearAllQuestions e s =
  if open_fails e then (Rejected (RejString "IndexedDB error"), s)
  else match request_error e 0 with
       | Some err => (Rejected (RejError (Some err)), s)
       | None =>
           match commit_error e with
           | Some _ => (Resolved tt, s)
           | None => (Resolved tt, ∅)
           end
       end.
Proof.
  unfold clearAllQuestions. single_request.
Qed.

(** The events of a batch of [put]s, folded through the three transaction
    handlers of [bulkUpdateQuestions]. *)
Lemma exec_puts (e : Engine) (i : nat) (qs : list Question) (w : Store) :
  let r := exec e i (map Put qs) w in
  let p := fold_left
             (fun (p : Promise unit) ev =>
                match ev with
                | TxComplete => resolve tt
                | TxError txerr => reject (RejError txerr)
                | TxAbort txerr => reject (RejError txerr)
                | _ => fun p => p
                end p) r.1 Pending in
  ((forall j, j < length qs -> request_error e (i + j) = None)
   /\ match commit_error e with
      | None => r.2 = Some (put_all w qs) /\ p = Resolved tt
      | Some err => r.2 = None /\ p = Rejected (RejError (Some err))
      end)
  \/ ((exists j err, j < length qs /\ request_error e (i + j) = Some err)
      /\ r.2 = None /\ p = Rejected (RejError None)).
Proof.
  revert i w. induction qs as [| q qs IH]; intros i w; simpl.
  - left. split; [intros j Hj; lia |]. by destruct (commit_error e).
  - destruct (request_error e i) as [err |] eqn:Hi.
    + right. split; [| done]. exists 0, err. rewrite Nat.add_0_r.
      split; [lia | done].
    + specialize (IH (S i) (<[id q := q]> w)).
      destruct (exec e (S i) (map Put qs) (<[id q := q]> w)) as [evs out].
      simpl in *. destruct IH as [[Hok Hc] | [(j & err & Hj & Hf) Hr]].
      * left. split; [| done]. intros [| j] Hj.
        -- by rewrite Nat.add_0_r.
        -- rewrite <- Nat.add_succ_comm. apply Hok. lia.
      * right. split; [| done]. exists (S j), err.
        rewrite <- Nat.add_succ_comm. split; [lia | done].
Qed.

Lemma bulkUpdateQuestions_run (qs : list Question) (e : Engine) (s : Store) :
  (open_fails e = true
   /\ bulkUpdateQuestions qs e s = (Rejected (RejString "IndexedDB error"), s))
  \/ (open_fails e = false
      /\ (exists j err, j < length qs /\ request_error e j = Some err)
      /\ bulkUpdateQuestions qs e s = (Rejected (RejError None), s))
  \/ (open_fails e = false
      /\ (forall j, j < length qs -> request_error e j = None)
      /\ exists err, commit_error e = Some err
         /\ bulkUpdateQuestions qs e s = (Rejected (RejError (Some err)), s))
  \/ (open_fails e = false
      /\ (forall j, j < length qs -> request_error e j = None)
      /\ commit_error e = None
      /\ bulkUpdateQuestions qs e s = (Resolved tt, put_all s qs)).
Proof.
  unfold bulkUpdateQuestions, await, initDB, in_transaction, transaction.
  destruct (open_fails e); [by left | right].
  pose proof (exec_puts e 0 qs s) as H. cbv zeta in H.
  destruct (exec e 0 (map Put qs) s) as [evs out]. simpl in H.
  destruct H as [[Hok Hc] | [Hf [-> ->]]].
  - right. destruct (commit_error e) as [err |]; destruct Hc as [-> ->].
    + left. repeat split; [done |]. by exists err.
    + by right.
  - by left.
Qed.

(** *** What [getAll] shows *)

Lemma records_Permutation (s : Store) : records s ≡ₚ (map_to_list s).*2.
Proof. unfold records. by rewrite merge_sort_Permutation. Qed.

Lemma elem_of_records (s : Store) (q : Question) :
  q ∈ records s <-> exists k, s !! k = Some q.
Proof.
  rewrite records_Permutation, list_elem_of_fmap. split.
  - intros ([k q'] & -> & H). exists k. by apply elem_of_map_to_list.
  - intros (k & H). exists (k, q). split; [done |].
    by apply elem_of_map_to_list.
Qed.

Lemma records_ids_NoDup (s : Store) : store_wf s -> NoDup (id <$> records s).
Proof.
  intros Hwf. rewrite records_Permutation.
  rewrite <- list_fmap_compose.
  rewrite (list_fmap_ext (id ∘ snd) fst (map_to_list s)).
  - apply NoDup_fst_map_to_list.
  - intros i [k q] Hi. simpl. apply Hwf.
    apply elem_of_map_to_list. eapply list_elem_of_lookup_2. exact Hi.
Qed.

Lemma store_wf_empty : store_wf ∅.
Proof. intros k q H. by rewrite lookup_empty in H. Qed.

Lemma store_wf_insert (s : Store) (q : Question) :
  store_wf s -> store_wf (<[id q := q]> s).
Proof.
  intros Hwf k q'. rewrite lookup_insert. case_decide.
  - by intros [= <-].
  - apply Hwf.
Qed.

Lemma store_wf_put_all (qs : list Question) (s : Store) :
  store_wf s -> store_wf (put_all s qs).
Proof.
  revert s. induction qs as [| q qs IH]; intros s Hwf; [done |].
  simpl. apply IH. by apply store_wf_insert.
Qed.

Lemma filter_none {A} (P : A -> Prop) `{forall x, Decision (P x)} (l : list A) :
  (forall z, z ∈ l -> ~ P z) -> filter P l = [].
Proof.
  induction l as [| z l IH]; intros Hl; [done |].
  rewrite filter_cons_False by (apply Hl; by left).
  apply IH. intros z' Hz'. apply Hl. by right.
Qed.

Lemma filter_unique {A B} `{EqDecision B} (f : A -> B) (l : list A) (x : A) :
  NoDup (f <$> l) -> x ∈ l -> filter (fun y => f y = f x) l = [x].
Proof.
  induction l as [| y l IH]; intros Hnd Hx.
  - by apply elem_of_nil in Hx.
  - rewrite fmap_cons in Hnd. apply NoDup_cons in Hnd as [Hy Hnd].
    assert (forall z, z ∈ l -> f z <> f y) as Hfresh.
    { intros z Hz Hzy. apply Hy. rewrite <- Hzy. by apply list_elem_of_fmap_2. }
    apply elem_of_cons in Hx as [-> | Hx].
    + rewrite filter_cons_True by done. f_equal. by apply filter_none.
    + rewrite filter_cons_False; [by apply IH |].
      intros Hyx. by apply (Hfresh x).
Qed.

Lemma put_all_lookup_other (qs : list Question) (s : Store) (k : string) :
  k ∉ id <$> qs -> put_all s qs !! k = s !! k.
Proof.
  revert s. induction qs as [| q qs IH]; intros s Hk; [done |].
  rewrite fmap_cons in Hk. apply not_elem_of_cons in Hk as [Hne Hk].
  simpl. rewrite IH by done. by rewrite lookup_insert_ne.
Qed.

Lemma put_all_lookup_key (qs : list Question) (s : Store) (k : string) :
  k ∈ id <$> qs ->
  exists q', q' ∈ qs /\ id q' = k /\ put_all s qs !! k = Some q'.
Proof.
  revert s. induction qs as [| x qs IH]; intros s Hk.
  - by apply elem_of_nil in Hk.
  - simpl. destruct (decide (k ∈ id <$> qs)) as [Hin | Hout].
    + destruct (IH (<[id x := x]> s) Hin) as (q' & Hq' & Hid & Hl).
      exists q'. split; [by right | done].
    + rewrite fmap_cons in Hk. apply elem_of_cons in Hk as [-> | Hk]; [| done].
      exists x. split; [by left |]. split; [done |].
      rewrite put_all_lookup_other by done. by rewrite lookup_insert_eq.
Qed.

Lemma put_all_lookup (qs : list Question) (s : Store) (q : Question) :
  q ∈ qs ->
  exists q', q' ∈ qs /\ id q' = id q /\ put_all s qs !! id q = Some q'.
Proof. intros Hq. by apply put_all_lookup_key, list_elem_of_fmap_2. Qed.

Lemma length_records (s : Store) : length (records s) = size s.
Proof.
  by rewrite records_Permutation, length_fmap, length_map_to_list.
Qed.

(** C4: a bulk write either upserts every record of the list or leaves the
    store as it was.  When the engine fails anywhere (at the open, on the
    k-th record, at the commit) the promise is rejected and the store, hence
    what [getAll] returns afterwards, is the one before the call; otherwise
    the promise resolves and every record of the list is stored under its
    identifier. *)
Theorem C4_bulk_atomic (qs : list Question) (e : Engine) (s : Store) :
  let r := bulkUpdateQuestions qs e s in
  ((r.1 = Resolved tt /\ r.2 = put_all s qs)
   \/ ((exists rej, r.1 = Rejected rej) /\ r.2 = s))
  /\ (open_fails e = true
      \/ (exists k err, k < length qs /\ request_error e k = Some err)
      \/ (exists err, commit_error e = Some err) ->
      (exists rej, r.1 = Rejected rej) /\ r.2 = s
      /\ records r.2 = records s
      /\ forall e', getAllQuestions e' r.2 = getAllQuestions e' s)
  /\ (open_fails e = false ->
      (forall k, k < length qs -> request_error e k = None) ->
      commit_error e = None ->
      r.1 = Resolved tt /\ r.2 = put_all s qs
      /\ (forall q, q ∈ qs ->
            exists q', q' ∈ qs /\ id q' = id q /\ r.2 !! id q = Some q')
      /\ (forall k, k ∉ id <$> qs -> r.2 !! k = s !! k)).
Proof.
  cbv zeta.
  destruct (bulkUpdateQuestions_run qs e s)
    as [[Ho ->] | [(Ho & Hf & ->) | [(Ho & Hok & err & Hc & ->) | (Ho & Hok & Hc & ->)]]];
    simpl.
  - split; [right; eauto |]. split; [eauto 6 |]. congruence.
  - split; [right; eauto |]. split; [eauto 6 |].
    intros _ Hok _. destruct Hf as (k & err & Hk & Hf).
    rewrite (Hok k Hk) in Hf. discriminate.
  - split; [right; eauto |]. split; [eauto 6 |]. congruence.
  - split; [by left |]. split.
    + intros [Hf | [(k & err & Hk & Hf) | (err & Hf)]]; [congruence | | congruence].
      rewrite (Hok k Hk) in Hf. discriminate.
    + intros _ _ _. repeat split.
      * intros q Hq. by apply put_all_lookup.
      * intros k Hk. by apply put_all_lookup_other.
Qed.

Lemma C4_witness :
  let s : Store := <["q0" := question_with "q0" ["optics"] [] YearUnknown]> ∅ in
  let qs := [question_with "q1" ["waves"] ["B.4"] (YearNum 2020);
             question_with "q0" ["optics"] ["C.1"] YearUnknown;
             question_with "q2" ["forces"] ["A.2"] (YearNum 2021)] in
  let r := bulkUpdateQuestions qs (failing_at 1 "QuotaExceededError") s in
  (exists rej, r.1 = Rejected rej) /\ r.2 = s.
Proof.
  intros s qs r.
  destruct (proj1 (proj2 (C4_bulk_atomic qs (failing_at 1 "QuotaExceededError") s)))
    as (Hrej & Hs & _); [| by split].
  right. left. exists 1, "QuotaExceededError". split; [simpl; lia | reflexivity].
Defined.

(** C8: [put] is an upsert keyed by the identifier.  Whatever the engine
    does, the store keeps one record per identifier.  When the write goes
    through, the record stored under the identifier is the saved one, in
    full, every other record is untouched, [getAll] shows exactly one record
    with that identifier, the number of records does not change when the
    identifier was already present, and saving the same record again changes
    nothing. *)
Theorem C8_put_upsert (s : Store) (q : Question) (e : Engine) :
  store_wf s ->
  let r := addQuestionToDB q e s in
  store_wf r.2
  /\ NoDup (id <$> records r.2)
  /\ (r.2 = s \/ r.2 = <[id q := q]> s)
  /\ (open_fails e = false -> request_error e 0 = None ->
      commit_error e = None ->
      r.1 = Resolved tt
      /\ r.2 !! id q = Some q
      /\ (forall k, k <> id q -> r.2 !! k = s !! k)
      /\ filter (fun x => id x = id q) (records r.2) = [q]
      /\ (is_Some (s !! id q) -> length (records r.2) = length (records s))
      /\ (s !! id q = None -> length (records r.2) = S (length (records s)))
      /\ (forall e2,
            (addQuestionToDB q e2 r.2).2 = r.2
            /\ records (addQuestionToDB q e2 r.2).2 = records r.2)).
Proof.
  intros Hwf. cbv zeta.
  assert (store_wf (<[id q := q]> s)) as Hwf' by by apply store_wf_insert.
  assert (store_wf (addQuestionToDB q e s).2
          /\ ((addQuestionToDB q e s).2 = s
              \/ (addQuestionToDB q e s).2 = <[id q := q]> s)) as [Hw Hcases].
  { rewrite addQuestionToDB_run.
    destruct (open_fails e); [by split; [| left] |].
    destruct (request_error e 0); [by split; [| left] |].
    destruct (commit_error e); [by split; [| left] | by split; [| right]]. }
  split; [done |]. split; [by apply records_ids_NoDup |]. split; [done |].
  intros Ho Hr Hc. rewrite addQuestionToDB_run, Ho, Hr, Hc. simpl.
  split; [done |]. split; [by rewrite lookup_insert_eq |].
  split; [intros k Hk; by rewrite lookup_insert_ne |].
  split.
  { apply (filter_unique id); [by apply records_ids_NoDup |].
    apply elem_of_records. exists (id q). by rewrite lookup_insert_eq. }
  split; [intros Hs; by rewrite !length_records, map_size_insert_Some |].
  split; [intros Hs; by rewrite !length_records, map_size_insert_None |].
  intros e2.
  assert ((addQuestionToDB q e2 (<[id q := q]> s)).2 = <[id q := q]> s) as ->.
  { rewrite addQuestionToDB_run.
    destruct (open_fails e2); [done |].
    destruct (request_error e2 0); [done |].
    destruct (commit_error e2); [done |]. simpl. by rewrite insert_insert_eq. }
  done.
Qed.

Lemma C8_witness :
  let q := question_with "q1" ["calculus"] [] (YearNum 2020) in
  let s : Store := <[id q := q]> ∅ in
  filter (fun x => id x = "q1") (records (addQuestionToDB q healthy s).2) = [q]
  /\ length (records (addQuestionToDB q healthy s).2) = length (records s).
Proof.
  intros q s.
  destruct (C8_put_upsert s q healthy (store_wf_insert ∅ q store_wf_empty))
    as (_ & _ & _ & H).
  destruct (H eq_refl eq_refl eq_refl) as (_ & _ & _ & Hone & Hlen & _).
  split; [exact Hone |]. apply Hlen. by exists q.
Defined.

(** A failed fetch and a failed single upsert reject with the same value, so
    no reading of the rejection tells a [ReadError] from a [WriteError]. *)
Lemma C9_counterexample : ~ exists classify, taxonomy_respected classify.
Proof.
  intros (classify & _ & Hread & Hwrite & _).
  pose (e := failing_at 0 "UnknownError").
  pose (q := question_with "q1" ["waves"] [] (YearNum 2020)).
  specialize (Hread e ∅ (RejError (Some "UnknownError")) eq_refl eq_refl).
  specialize (Hwrite q e ∅ (RejError (Some "UnknownError")) eq_refl eq_refl).
  congruence.
Qed.

(** C9, as the code has it: a failure of the open request rejects every
    operation with the string "IndexedDB error"; a failed [getAll] or [put]
    request rejects with that request's own error; a bulk write rejects with
    [transaction.error] as the first of its error/abort handlers reads it
    ([null] when a request failed, the abort reason when the commit failed).
    In each of these cases the store is left as it was. *)
Theorem C9_rejections :
  (forall (e : Engine) (s : Store) (q : Question) (qs : list Question),
     open_fails e = true ->
     getAllQuestions e s = (Rejected (RejString "IndexedDB error"), s)
     /\ addQuestionToDB q e s = (Rejected (RejString "IndexedDB error"), s)
     /\ bulkUpdateQuestions qs e s = (Rejected (RejString "IndexedDB error"), s))
  /\ (forall (e : Engine) (s : Store) (err : DOMException),
        open_fails e = false -> request_error e 0 = Some err ->
        getAllQuestions e s = (Rejected (RejError (Some err)), s))
  /\ (forall (e : Engine) (s : Store) (q : Question) (err : DOMException),
        open_fails e = false -> request_error e 0 = Some err ->
        addQuestionToDB q e s = (Rejected (RejError (Some err)), s))
  /\ (forall (e : Engine) (s : Store) (qs : list Question),
        open_fails e = false ->
        (exists k err, k < length qs /\ request_error e k = Some err) ->
        bulkUpdateQuestions qs e s = (Rejected (RejError None), s))
  /\ (forall (e : Engine) (s : Store) (qs : list Question) (err : DOMException),
        open_fails e = false ->
        (forall k, k < length qs -> request_error e k = None) ->
        commit_error e = Some err ->
        bulkUpdateQuestions qs e s = (Rejected (RejError (Some err)), s)).
Proof.
  split; [| repeat split].
  - intros e s q qs Ho. split; [| split].
    + rewrite getAllQuestions_run. by rewrite Ho.
    + rewrite addQuestionToDB_run. by rewrite Ho.
    + destruct (bulkUpdateQuestions_run qs e s)
        as [[_ ->] | [(Ho' & _) | [(Ho' & _) | (Ho' & _)]]]; congruence.
  - intros e s err Ho Hr. rewrite getAllQuestions_run. by rewrite Ho, Hr.
  - intros e s q err Ho Hr. rewrite addQuestionToDB_run. by rewrite Ho, Hr.
  - intros e s qs Ho (k & err & Hk & Hf).
    destruct (bulkUpdateQuestions_run qs e s)
      as [[Ho' _] | [(_ & _ & ->) | [(_ & Hok & _) | (_ & Hok & _)]]];
      try congruence; rewrite (Hok k Hk) in Hf; discriminate.
  - intros e s qs err Ho Hok Hc.
    destruct (bulkUpdateQuestions_run qs e s)
      as [[Ho' _] | [(_ & (k & err' & Hk & Hf) & _)
                    | [(_ & _ & err' & Hc' & ->) | (_ & _ & Hc' & _)]]];
      try congruence.
    rewrite (Hok k Hk) in Hf. discriminate.
Qed.

Lemma C9_witness :
  let q := question_with "q1" ["waves"] [] (YearNum 2020) in
  getAllQuestions (failing_at 0 "UnknownError") ∅
  = (Rejected (RejError (Some "UnknownError")), ∅)
  /\ bulkUpdateQuestions [q; q] (failing_at 1 "QuotaExceededError") ∅
     = (Rejected (RejError None), ∅).
Proof.
  intros q. destruct C9_rejections as (_ & Hread & _ & Hbulk & _). split.
  - by apply Hread.
  - apply Hbulk; [done |]. exists 1, "QuotaExceededError".
    split; [simpl; lia | reflexivity].
Defined.

(** The scenario of the specification: empty store, one [put], one
    [delete]. *)
Example store_scenario :
  let q1 := question_with "q1" ["calculus"] [] (YearNum 2020) in
  let s1 := (addQuestionToDB q1 healthy ∅).2 in
  let s2 := (deleteQuestionFromDB "q1" healthy s1).2 in
  getAllQuestions healthy ∅ = (Resolved [], ∅)
  /\ (getAllQuestions healthy s1).1 = Resolved [q1]
  /\ (getAllQuestions healthy s2).1 = Resolved [].
Proof. by vm_compute. Qed.

(** [getAll] returns the records in key order, whatever the order of the
    writes. *)
Example getAll_key_order :
  id <$> records (bulkUpdateQuestions
                    [question_with "b" [] [] YearUnknown;
                     question_with "a" [] [] YearUnknown;
                     question_with "c" [] [] YearUnknown] healthy ∅).2
  = ["a"; "b"; "c"].
Proof. by vm_compute. Qed.

(** [addQuestionToDB] settles on the request's events only: when the
    transaction aborts after the request succeeded, the promise is already
    resolved and nothing was stored. *)
Remark addQuestionToDB_abort_after_success (q : Question) (s : Store)
    (err : DOMException) :
  addQuestionToDB q {| open_fails := false;
                       request_error := fun _ => None;
                       commit_error := Some err |} s
  = (Resolved tt, s).
Proof. by rewrite addQuestionToDB_run. Qed.

End RecordStore.

(** ** Auto-tag rule engine *)

Section AutoTag.
Import Types TopicTaggerModal App.

(** The callback of the filter in [affectedQuestions]. *)
Lemma qualifies_spec (targetTopic : string) (kws : list string) (q : Question) :
  Js.some (fun k => Js.includes kws k) (keywords q)
  && negb (Js.includes (topics_or_empty q) targetTopic) = true
  <-> qualifies targetTopic kws q.
Proof.
  unfold qualifies.
  rewrite andb_true_iff, negb_true_iff, includes_false, some_true, Exists_exists.
  by setoid_rewrite includes_elem_of.
Qed.

Lemma qualifies_exists (targetTopic : string) (kws : list string) (q : Question) :
  qualifies targetTopic kws q <->
  (exists k, k ∈ keywords q /\ k ∈ kws) /\ targetTopic ∉ topics_or_empty q.
Proof. unfold qualifies. by rewrite Exists_exists. Qed.

Lemma List_filter_reflect {A} (f : A -> bool) (P : A -> Prop)
    `{forall x, Decision (P x)} (l : list A) :
  (forall x, f x = true <-> P x) -> List.filter f l = filter P l.
Proof.
  intros Hf. induction l as [| x l IH]; [done |]. simpl.
  destruct (f x) eqn:E.
  - rewrite filter_cons_True by by apply Hf. by rewrite IH.
  - rewrite filter_cons_False; [done |]. rewrite <- Hf. congruence.
Qed.

Lemma affectedQuestions_guard (allQuestions : list Question)
    (targetTopic : string) (kws : list string) :
  targetTopic = "" \/ kws = [] ->
  affectedQuestions allQuestions targetTopic kws = [].
Proof.
  unfold affectedQuestions, Js.truthy_str.
  intros [-> | ->]; [done |]. by rewrite orb_true_r.
Qed.

Lemma affectedQuestions_filter (allQuestions : list Question)
    (targetTopic : string) (kws : list string) :
  targetTopic <> "" -> kws <> [] ->
  affectedQuestions allQuestions targetTopic kws
  = filter (qualifies targetTopic kws) allQuestions.
Proof.
  intros Ht Hk. unfold affectedQuestions.
  rewrite (proj2 (truthy_str_true _) Ht).
  assert ((length kws =? 0)%nat = false) as -> by by destruct kws.
  cbn [negb orb]. apply List_filter_reflect. intros q. apply qualifies_spec.
Qed.

Lemma withTopic_tagged (targetTopic : string) (q : Question) :
  tagged targetTopic q (withTopic targetTopic q).
Proof. by repeat split. Qed.

Lemma withTopic_has_topic (targetTopic : string) (q : Question) :
  targetTopic ∈ topics_or_empty (withTopic targetTopic q).
Proof.
  unfold topics_or_empty. simpl. apply elem_of_app. right.
  by apply list_elem_of_singleton.
Qed.

Lemma bulkUpdateQuestions_healthy (qs : list Question) (s : Db.Store) :
  Db.bulkUpdateQuestions qs Db.healthy s = (Db.Resolved tt, put_all s qs).
Proof.
  destruct (bulkUpdateQuestions_run qs Db.healthy s)
    as [[Ho _] | [(_ & (k & err & _ & Hf) & _)
                 | [(_ & _ & err & Hc & _) | (_ & _ & _ & ->)]]];
    done.
Qed.

(** C3: with a non-empty target and a non-empty trigger list, the records
    the rule applies to are exactly those of the list that have a trigger
    keyword and lack the target topic, in the order of the list; the output
    is those records, each with the target appended at the end of its topics
    and nothing else changed.  With an empty trigger list or an empty target
    nothing qualifies, the output is empty, and handing it on writes nothing
    and resolves. *)
Theorem C3_auto_tag (allQuestions : list Question) (targetTopic : string)
    (kws : list string) :
  let affected := affectedQuestions allQuestions targetTopic kws in
  let updated := handleApply allQuestions targetTopic kws in
  (targetTopic <> "" -> kws <> [] ->
   affected = filter (qualifies targetTopic kws) allQuestions
   /\ forall q, q ∈ affected <->
        q ∈ allQuestions
        /\ (exists k, k ∈ keywords q /\ k ∈ kws)
        /\ targetTopic ∉ topics_or_empty q)
  /\ Forall2 (tagged targetTopic) affected updated
  /\ (targetTopic = "" \/ kws = [] ->
      affected = [] /\ updated = []
      /\ forall s questions,
           Db.bulkUpdateQuestions updated Db.healthy s = (Db.Resolved tt, s)
           /\ handleAutoTag updated Db.healthy s questions = (s, questions)).
Proof.
  cbv zeta. split; [| split].
  - intros Ht Hk. rewrite affectedQuestions_filter by done.
    split; [done |]. intros q.
    rewrite list_elem_of_filter, qualifies_exists. tauto.
  - unfold handleApply.
    induction (affectedQuestions allQuestions targetTopic kws) as [| q l IH];
      constructor; [apply withTopic_tagged | done].
  - intros Hg. unfold handleApply.
    rewrite (affectedQuestions_guard _ _ _ Hg). simpl.
    split; [done |]. split; [done |]. intros s questions.
    unfold handleAutoTag. rewrite bulkUpdateQuestions_healthy. simpl.
    split; [done |]. f_equal. unfold replaceUpdated. simpl.
    induction questions as [| q l IH]; [done |]. simpl. by rewrite IH.
Qed.

Lemma C3_witness :
  let q1 := question_with "q1" ["waves"] [] (YearNum 2020) in
  let q2 := question_with "q2" ["forces"] [] (YearNum 2020) in
  affectedQuestions [q1; q2] "B.4" ["waves"]
  = filter (qualifies "B.4" ["waves"]) [q1; q2]
  /\ affectedQuestions [q1; q2] "" ["waves"] = [].
Proof.
  intros q1 q2. split.
  - by apply (proj1 (C3_auto_tag [q1; q2] "B.4" ["waves"])).
  - apply (proj2 (proj2 (C3_auto_tag [q1; q2] "" ["waves"]))). by left.
Defined.

(** *** Idempotence *)

(** [find] cannot miss once the identifier was found in [updatedIds]. *)
Lemma find_updated (updated : list Question) (q : Question) :
  Js.includes (map id updated) (id q) = true ->
  exists uq, List.find (fun uq => String.eqb (id uq) (id q)) updated = Some uq
             /\ uq ∈ updated /\ id uq = id q.
Proof.
  intros Hin. apply includes_elem_of, list_elem_of_fmap in Hin as (u & Hid & Hu).
  destruct (List.find (fun uq => String.eqb (id uq) (id q)) updated) as [uq |] eqn:E.
  - apply find_some in E as [Huq Heq]. exists uq.
    split; [done |]. split; [by apply list_elem_of_In |]. by apply String.eqb_eq.
  - apply list_elem_of_In in Hu. pose proof (find_none _ _ E u Hu) as Hne.
    simpl in Hne. rewrite <- Hid, String.eqb_refl in Hne. discriminate.
Qed.

(** After the merge no record qualifies any more. *)
Lemma replaceUpdated_settled (allQuestions : list Question)
    (targetTopic : string) (kws : list string) (q' : Question) :
  targetTopic <> "" -> kws <> [] ->
  q' ∈ replaceUpdated (handleApply allQuestions targetTopic kws) allQuestions ->
  ~ qualifies targetTopic kws q'.
Proof.
  intros Ht Hk Hq'. unfold replaceUpdated in Hq'.
  apply list_elem_of_fmap in Hq' as (q & -> & Hq).
  assert (forall uq, uq ∈ handleApply allQuestions targetTopic kws ->
                     ~ qualifies targetTopic kws uq) as Hupd.
  { intros uq Huq [_ Hmiss]. unfold handleApply in Huq.
    apply list_elem_of_fmap in Huq as (q0 & -> & _).
    apply Hmiss, withTopic_has_topic. }
  destruct (Js.includes (map id (handleApply allQuestions targetTopic kws)) (id q))
    eqn:Hin.
  - destruct (find_updated _ _ Hin) as (uq & -> & Huq & _). by apply Hupd.
  - intros Hqual. apply includes_false in Hin. apply Hin.
    apply list_elem_of_fmap. exists (withTopic targetTopic q). split; [done |].
    unfold handleApply. apply list_elem_of_fmap_2.
    rewrite affectedQuestions_filter by done. by apply list_elem_of_filter.
Qed.

Lemma replaceUpdated_nil (questions : list Question) :
  replaceUpdated [] questions = questions.
Proof.
  unfold replaceUpdated. simpl.
  induction questions as [| q l IH]; [done |]. simpl. by rewrite IH.
Qed.

(** C7: once the rule has been applied and the updated records have
    replaced the ones they come from, the same rule applies to no record:
    its output is empty and merging it changes nothing, so the topics stay
    as the first application left them. *)
Theorem C7_auto_tag_idempotent (allQuestions : list Question)
    (targetTopic : string) (kws : list string) :
  let updated := handleApply allQuestions targetTopic kws in
  let questions' := replaceUpdated updated allQuestions in
  affectedQuestions questions' targetTopic kws = []
  /\ handleApply questions' targetTopic kws = []
  /\ replaceUpdated (handleApply questions' targetTopic kws) questions'
     = questions'
  /\ (forall s, (handleAutoTag updated Db.healthy s allQuestions).2 = questions')
  /\ (forall e s,
        (handleAutoTag (handleApply questions' targetTopic kws) e s questions').2
        = questions').
Proof.
  cbv zeta.
  set (questions' :=
         replaceUpdated (handleApply allQuestions targetTopic kws) allQuestions).
  assert (affectedQuestions questions' targetTopic kws = []) as Haff.
  { destruct (decide (targetTopic = "")) as [Ht | Ht];
      [apply affectedQuestions_guard; by left |].
    destruct (decide (kws = [])) as [Hk | Hk];
      [apply affectedQuestions_guard; by right |].
    rewrite affectedQuestions_filter by done. apply filter_none.
    intros q' Hq'. by eapply replaceUpdated_settled. }
  assert (handleApply questions' targetTopic kws = []) as Happ.
  { unfold handleApply. by rewrite Haff. }
  split; [done |]. split; [done |]. rewrite Happ.
  split; [apply replaceUpdated_nil |]. split.
  - intros s. unfold handleAutoTag. by rewrite bulkUpdateQuestions_healthy.
  - intros e s. unfold handleAutoTag.
    destruct (Db.bulkUpdateQuestions [] e s) as [[| [] | r] s']; simpl;
      try done. apply replaceUpdated_nil.
Qed.

(** The scenario of the specification: only the record with the trigger
    keyword is updated. *)
Example auto_tag_scenario :
  let q1 := question_with "q1" ["waves"] [] (YearNum 2020) in
  let q2 := question_with "q2" ["forces"] [] (YearNum 2020) in
  handleApply [q1; q2] "B.4" ["waves"]
  = [question_with "q1" ["waves"] ["B.4"] (YearNum 2020)]
  /\ replaceUpdated (handleApply [q1; q2] "B.4" ["waves"]) [q1; q2]
     = [question_with "q1" ["waves"] ["B.4"] (YearNum 2020); q2].
Proof. by vm_compute. Qed.

End AutoTag.

(** * Further properties *)

(** ** The other store operations *)

Section StoreOperations.
Import Types Db.

Lemma records_NoDup (s : Store) : store_wf s -> NoDup (records s).
Proof. intros Hwf. eapply NoDup_fmap_1, records_ids_NoDup, Hwf. Qed.

Lemma elem_of_records_wf (s : Store) (q : Question) :
  store_wf s -> (q ∈ records s <-> s !! id q = Some q).
Proof.
  intros Hwf. rewrite elem_of_records. split; [| by exists (id q)].
  intros (k & Hk). by rewrite (Hwf k q Hk).
Qed.

Lemma records_empty : records ∅ = [].
Proof. unfold records. by rewrite map_to_list_empty. Qed.

Lemma store_wf_delete (s : Store) (k : string) :
  store_wf s -> store_wf (delete k s).
Proof.
  intros Hwf k' q. rewrite lookup_delete_Some. intros [_ H]. by apply Hwf.
Qed.

Lemma records_delete (s : Store) (k : string) :
  store_wf s ->
  records (delete k s) ≡ₚ filter (fun q => id q <> k) (records s).
Proof.
  intros Hwf. apply NoDup_Permutation.
  - by apply records_NoDup, store_wf_delete.
  - by apply NoDup_filter, records_NoDup.
  - intros q. rewrite list_elem_of_filter.
    rewrite !elem_of_records_wf by (done || by apply store_wf_delete).
    rewrite lookup_delete_Some.
    split; (intros [Hne Hq]; split; [congruence | done]).
Qed.

Lemma records_insert (s : Store) (q : Question) :
  store_wf s ->
  records (<[id q := q]> s) ≡ₚ q :: filter (fun x => id x <> id q) (records s).
Proof.
  intros Hwf. apply NoDup_Permutation.
  - by apply records_NoDup, store_wf_insert.
  - apply NoDup_cons. split; [| by apply NoDup_filter, records_NoDup].
    rewrite list_elem_of_filter. tauto.
  - intros x. rewrite elem_of_cons, list_elem_of_filter.
    rewrite !elem_of_records_wf by (done || by apply store_wf_insert).
    rewrite lookup_insert. case_decide as Hk.
    + split; [intros [= ->]; by left |].
      intros [-> | [Hne _]]; [done | congruence].
    + split; [intros Hx; right; split; [congruence | done] |].
      intros [-> | [_ Hx]]; [done | done].
Qed.

(** X1.  When the engine carries the call out, [deleteQuestionFromDB]
    resolves, the identifier is gone, every other record is untouched, and
    what [getAll] shows is what it showed before without that identifier.
    Deleting an identifier that is not stored resolves too and leaves the
    store as it was. *)
Theorem deleteQuestionFromDB_removes (key : string) (e : Engine) (s : Store) :
  store_wf s -> carries_out e ->
  let r := deleteQuestionFromDB key e s in
  r.1 = Resolved tt
  /\ r.2 !! key = None
  /\ (forall k, k <> key -> r.2 !! k = s !! k)
  /\ records r.2 ≡ₚ filter (fun q => id q <> key) (records s)
  /\ (s !! key = None -> r.2 = s).
Proof.
  intros Hwf (Ho & Hr & Hc). cbv zeta.
  rewrite deleteQuestionFromDB_run, Ho, Hr, Hc. simpl.
  split; [done |]. split; [by rewrite lookup_delete_eq |].
  split; [intros k Hk; by rewrite lookup_delete_ne |].
  split; [by apply records_delete | apply delete_id].
Qed.

Lemma carries_out_healthy : carries_out healthy.
Proof. by repeat split. Qed.

Lemma deleteQuestionFromDB_removes_witness :
  let q := question_with "q1" ["calculus"] [] (YearNum 2020) in
  let s : Store := <[id q := q]> ∅ in
  (deleteQuestionFromDB "q1" healthy s).2 !! "q1" = None
  /\ (deleteQuestionFromDB "q9" healthy s).2 = s.
Proof.
  intros q s.
  assert (store_wf s) as Hwf by apply store_wf_insert, store_wf_empty.
  split.
  - apply (deleteQuestionFromDB_removes "q1" healthy s Hwf carries_out_healthy).
  - by apply (deleteQuestionFromDB_removes "q9" healthy s Hwf carries_out_healthy).
Defined.



(** X3.  When the engine carries the call out, [clearAllQuestions] resolves
    and a following [getAllQuestions] resolves with the empty list, whatever
    was stored. *)
Theorem clearAllQuestions_empties (e e' : Engine) (s : Store) :
  carries_out e -> carries_out e' ->
  let r := clearAllQuestions e s in
  r.1 = Resolved tt /\ r.2 = ∅
  /\ (getAllQuestions e' r.2).1 = Resolved [].
Proof.
  intros (Ho & Hr & Hc) (Ho' & Hr' & Hc'). cbv zeta.
  rewrite clearAllQuestions_run, Ho, Hr, Hc. simpl.
  split; [done |]. split; [done |].
  rewrite getAllQuestions_run, Ho', Hr'. simpl. by rewrite records_empty.
Qed.

Lemma clearAllQuestions_empties_witness :
  let q := question_with "q1" ["calculus"] [] (YearNum 2020) in
  (getAllQuestions healthy
     (clearAllQuestions healthy (<[id q := q]> ∅)).2).1 = Resolved [].
Proof.
  intros q.
  apply (clearAllQuestions_empties healthy healthy (<[id q := q]> ∅)
           carries_out_healthy carries_out_healthy).
Defined.

Lemma rejection_unchanged (e : Engine) (s : Store) :
  (getAllQuestions e s).2 = s
  /\ (forall q rej,
        (addQuestionToDB q e s).1 = Rejected rej -> (addQuestionToDB q e s).2 = s)
  /\ (forall qs rej,
        (bulkUpdateQuestions qs e s).1 = Rejected rej ->
        (bulkUpdateQuestions qs e s).2 = s)
  /\ (forall k rej,
        (deleteQuestionFromDB k e s).1 = Rejected rej ->
        (deleteQuestionFromDB k e s).2 = s)
  /\ (forall rej,
        (clearAllQuestions e s).1 = Rejected rej -> (clearAllQuestions e s).2 = s).
Proof.
  split; [| split; [| split; [| split]]].
  - rewrite getAllQuestions_run.
    destruct (open_fails e); [done |]. by destruct (request_error e 0).
  - intros q rej. rewrite addQuestionToDB_run.
    destruct (open_fails e); [done |]. destruct (request_error e 0); [done |].
    by destruct (commit_error e).
  - intros qs rej.
    destruct (bulkUpdateQuestions_run qs e s)
      as [[_ ->] | [(_ & _ & ->) | [(_ & _ & err & _ & ->) | (_ & _ & _ & ->)]]];
      done.
  - intros k rej. rewrite deleteQuestionFromDB_run.
    destruct (open_fails e); [done |]. destruct (request_error e 0); [done |].
    by destruct (commit_error e).
  - intros rej. rewrite clearAllQuestions_run.
    destruct (open_fails e); [done |]. destruct (request_error e 0); [done |].
    by destruct (commit_error e).
Qed.

(** X4.  A call whose promise is rejected has changed nothing: this holds
    for each of the five wrappers under every behaviour of the engine, and
    [getAllQuestions] never changes the store at all. *)
Theorem rejected_leaves_store (e : Engine) (s : Store) :
  (getAllQuestions e s).2 = s
  /\ (forall q rej,
        (addQuestionToDB q e s).1 = Rejected rej -> (addQuestionToDB q e s).2 = s)
  /\ (forall qs rej,
        (bulkUpdateQuestions qs e s).1 = Rejected rej ->
        (bulkUpdateQuestions qs e s).2 = s)
  /\ (forall k rej,
        (deleteQuestionFromDB k e s).1 = Rejected rej ->
        (deleteQuestionFromDB k e s).2 = s)
  /\ (forall rej,
        (clearAllQuestions e s).1 = Rejected rej -> (clearAllQuestions e s).2 = s).
Proof. exact (rejection_unchanged e s). Qed.

Lemma rejected_leaves_store_witness :
  let q := question_with "q1" ["calculus"] [] (YearNum 2020) in
  (addQuestionToDB q (failing_at 0 "UnknownError") ∅).2 = ∅.
Proof.
  intros q.
  by apply (proj1 (proj2 (rejected_leaves_store (failing_at 0 "UnknownError") ∅))
              q (RejError (Some "UnknownError"))).
Defined.

(** X5.  Every wrapper keeps each record under its own identifier, whatever
    the engine does; so the identifiers [getAll] shows afterwards are
    pairwise distinct. *)
Theorem wrappers_keep_store_wf (e : Engine) (s : Store) :
  store_wf s ->
  unique_ids (getAllQuestions e s).2
  /\ (forall q, unique_ids (addQuestionToDB q e s).2)
  /\ (forall qs, unique_ids (bulkUpdateQuestions qs e s).2)
  /\ (forall k, unique_ids (deleteQuestionFromDB k e s).2)
  /\ unique_ids (clearAllQuestions e s).2.
Proof.
  intros Hwf.
  assert (forall s', store_wf s' -> unique_ids s') as Hu.
  { intros s' Hs'. split; [done | by apply records_ids_NoDup]. }
  split; [| split; [| split; [| split]]]; intros; apply Hu.
  - by rewrite (proj1 (rejection_unchanged e s)).
  - rewrite addQuestionToDB_run.
    destruct (open_fails e); [done |]. destruct (request_error e 0); [done |].
    destruct (commit_error e); [done |]. by apply store_wf_insert.
  - destruct (bulkUpdateQuestions_run qs e s)
      as [[_ ->] | [(_ & _ & ->) | [(_ & _ & err & _ & ->) | (_ & _ & _ & ->)]]];
      try done. by apply store_wf_put_all.
  - rewrite deleteQuestionFromDB_run.
    destruct (open_fails e); [done |]. destruct (request_error e 0); [done |].
    destruct (commit_error e); [done |]. by apply store_wf_delete.
  - rewrite clearAllQuestions_run.
    destruct (open_fails e); [done |]. destruct (request_error e 0); [done |].
    destruct (commit_error e); [done |]. apply store_wf_empty.
Qed.

Lemma wrappers_keep_store_wf_witness :
  let q := question_with "q1" ["calculus"] [] (YearNum 2020) in
  NoDup (id <$> records (bulkUpdateQuestions [q; q] healthy ∅).2).
Proof.
  intros q.
  apply (proj1 (proj2 (proj2 (wrappers_keep_store_wf healthy ∅ store_wf_empty)))
           [q; q]).
Defined.

End StoreOperations.

(** ** Sorting and sets *)

Section SortingFacts.
Context {A : Type}.
Implicit Types (l : list A) (x y : A).

Lemma insert_by_Permutation (cmp : A -> A -> Z) x l :
  Js.insert_by cmp x l ≡ₚ x :: l.
Proof.
  induction l as [| y l IH]; [done |]. simpl.
  destruct (cmp x y <=? 0)%Z; [done |]. rewrite IH. apply Permutation_swap.
Qed.

Lemma sort_by_Permutation (cmp : A -> A -> Z) l : Js.sort_by cmp l ≡ₚ l.
Proof.
  induction l as [| x l IH]; [done |]. unfold Js.sort_by in *. simpl.
  by rewrite insert_by_Permutation, IH.
Qed.

Lemma elem_of_sort_by (cmp : A -> A -> Z) l x : x ∈ Js.sort_by cmp l <-> x ∈ l.
Proof. by rewrite sort_by_Permutation. Qed.

Lemma insert_by_Sorted (R : relation A) (cmp : A -> A -> Z) x l :
  (forall y, y ∈ l -> (cmp x y <=? 0)%Z = true -> R x y) ->
  (forall y, y ∈ l -> (cmp x y <=? 0)%Z = false -> R y x) ->
  Sorted R l -> Sorted R (Js.insert_by cmp x l).
Proof.
  intros Hle Hgt. induction 1 as [| y l Hs IH Hhd].
  - simpl. by repeat constructor.
  - simpl. destruct (cmp x y <=? 0)%Z eqn:E.
    + constructor; [by constructor |]. constructor. apply Hle; [by left | done].
    + constructor.
      * apply IH; intros z Hz; [apply Hle | apply Hgt]; by right.
      * destruct Hhd as [| z l' Hyz]; simpl.
        -- constructor. apply Hgt; [by left | done].
        -- destruct (cmp x z <=? 0)%Z; constructor; [| done].
           apply Hgt; [by left | done].
Qed.

(** A comparator that agrees with [R] on distinct elements sorts a list
    without duplicates into [R]-order. *)
Lemma sort_by_Sorted_NoDup (R : relation A) (cmp : A -> A -> Z) l :
  (forall x y, x <> y -> (cmp x y <=? 0)%Z = true -> R x y) ->
  (forall x y, x <> y -> (cmp x y <=? 0)%Z = false -> R y x) ->
  NoDup l -> Sorted R (Js.sort_by cmp l).
Proof.
  intros Hle Hgt. induction 1 as [| x l Hx Hnd IH]; [constructor |].
  unfold Js.sort_by in *. simpl. apply insert_by_Sorted; [| | done].
  - intros y Hy. apply Hle. intros ->. by apply elem_of_sort_by in Hy.
  - intros y Hy. apply Hgt. intros ->. by apply elem_of_sort_by in Hy.
Qed.

Lemma sort_by_Sorted (R : relation A) (cmp : A -> A -> Z) l :
  (forall x y, (cmp x y <=? 0)%Z = true -> R x y) ->
  (forall x y, (cmp x y <=? 0)%Z = false -> R y x) ->
  Sorted R (Js.sort_by cmp l).
Proof.
  intros Hle Hgt. induction l as [| x l IH]; [constructor |].
  unfold Js.sort_by in *. simpl. apply insert_by_Sorted; auto.
Qed.

(** Adding to a set. *)
Lemma set_add_spec (eqb : A -> A -> bool) (set : list A) x :
  (forall a b, eqb a b = true <-> a = b) ->
  NoDup set ->
  NoDup (Js.set_add eqb set x)
  /\ forall y, y ∈ Js.set_add eqb set x <-> y ∈ set \/ y = x.
Proof.
  intros Heqb Hnd. unfold Js.set_add.
  destruct (existsb (eqb x) set) eqn:E.
  - split; [done |]. intros y. split; [by left |]. intros [Hy | ->]; [done |].
    apply existsb_exists in E as (z & Hz & Hxz). apply Heqb in Hxz as ->.
    by apply list_elem_of_In.
  - split.
    + apply NoDup_app. split; [done |]. split; [| apply NoDup_singleton].
      intros y Hy Hyx. apply list_elem_of_singleton in Hyx as ->.
      assert (existsb (eqb x) set = true) as E'; [| congruence].
      apply existsb_exists. exists x. split; [by apply list_elem_of_In |].
      by apply Heqb.
    + intros y. by rewrite elem_of_app, list_elem_of_singleton.
Qed.

Lemma fold_set_add_spec (eqb : A -> A -> bool) (xs set : list A) :
  (forall a b, eqb a b = true <-> a = b) ->
  NoDup set ->
  NoDup (fold_left (Js.set_add eqb) xs set)
  /\ forall y, y ∈ fold_left (Js.set_add eqb) xs set <-> y ∈ set \/ y ∈ xs.
Proof.
  intros Heqb. revert set. induction xs as [| x xs IH]; intros set Hnd; simpl.
  - split; [done |]. intros y. rewrite elem_of_nil. tauto.
  - destruct (set_add_spec eqb set x Heqb Hnd) as [Hnd' Hin'].
    destruct (IH _ Hnd') as [Hnd'' Hin'']. split; [done |].
    intros y. rewrite Hin'', Hin', elem_of_cons. tauto.
Qed.

End SortingFacts.

(** ** The lists of the sidebar *)

Section DerivedLists.
Import Types App.

Lemma collect_spec (f : Question -> list string) (qs : list Question)
    (set : list string) :
  NoDup set ->
  let r := fold_left
             (fun set q => fold_left (Js.set_add String.eqb) (f q) set) qs set in
  NoDup r /\ forall k, k ∈ r <-> k ∈ set \/ exists q, q ∈ qs /\ k ∈ f q.
Proof.
  revert set. induction qs as [| q qs IH]; intros set Hnd; simpl.
  - split; [done |]. intros k. split; [by left |].
    intros [Hk | (q & Hq & _)]; [done | by apply elem_of_nil in Hq].
  - destruct (fold_set_add_spec String.eqb (f q) set String.eqb_eq Hnd)
      as [Hnd' Hin'].
    destruct (IH _ Hnd') as [Hnd'' Hin'']. split; [done |].
    intros k. rewrite Hin'', Hin'. split.
    + intros [[Hk | Hk] | (q' & Hq' & Hk)]; [by left | |].
      * right. exists q. split; [by left | done].
      * right. exists q'. split; [by right | done].
    + intros [Hk | (q' & Hq' & Hk)]; [by left; left |].
      apply elem_of_cons in Hq' as [-> | Hq']; [by left; right |].
      right. by exists q'.
Qed.

Lemma sort_strings_Sorted (l : list string) :
  NoDup l -> Sorted string_lt (Js.sort l).
Proof.
  intros Hnd. apply sort_by_Sorted_NoDup; [| | done].
  - intros x y Hne. unfold Js.compare_strings, string_lt, String.ltb.
    destruct (String.compare x y) eqn:E; try done.
    by apply String.compare_eq_iff in E.
  - intros x y Hne. unfold Js.compare_strings, string_lt, String.ltb.
    rewrite (String.compare_antisym y x).
    by destruct (String.compare x y).
Qed.

Lemma tag_list_spec (f : Question -> list string) (qs : list Question) :
  let l := Js.sort
             (fold_left
                (fun set q => fold_left (Js.set_add String.eqb) (f q) set)
                qs []) in
  (forall k, k ∈ l <-> exists q, q ∈ qs /\ k ∈ f q)
  /\ NoDup l /\ Sorted string_lt l.
Proof.
  destruct (collect_spec f qs [] NoDup_nil_2) as [Hnd Hin]. cbv zeta.
  split; [| split].
  - intros k. unfold Js.sort. rewrite elem_of_sort_by, Hin, elem_of_nil. tauto.
  - unfold Js.sort. by rewrite sort_by_Permutation.
  - by apply sort_strings_Sorted.
Qed.

(** X6.  [allKeywords] lists exactly the keywords that occur in some
    question, each once, in strictly ascending order; [allTopics] does the
    same for the topics. *)
Theorem sidebar_tag_lists (qs : list Question) :
  ((forall k, k ∈ allKeywords qs <-> exists q, q ∈ qs /\ k ∈ keywords q)
   /\ NoDup (allKeywords qs) /\ Sorted string_lt (allKeywords qs))
  /\ ((forall t, t ∈ allTopics qs <-> exists q, q ∈ qs /\ t ∈ topics_or_empty q)
      /\ NoDup (allTopics qs) /\ Sorted string_lt (allTopics qs)).
Proof.
  split; [apply (tag_list_spec keywords) | apply (tag_list_spec topics_or_empty)].
Qed.

#[local] Instance year_before_trans : Transitive year_before.
Proof.
  intros [x |] [y |] [z |]; simpl; try done. lia.
Qed.



Example availableYears_example :
  availableYears
    [question_with "a" [] [] (YearNum 2019); question_with "b" [] [] YearUnknown;
     question_with "c" [] [] (YearNum 2021); question_with "d" [] [] (YearNum 2019)]
  = [YearNum 2021; YearNum 2019; YearUnknown].
Proof. reflexivity. Qed.

Example allKeywords_example :
  allKeywords
    [question_with "a" ["waves"; "optics"] [] YearUnknown;
     question_with "b" ["forces"; "waves"] [] YearUnknown]
  = ["forces"; "optics"; "waves"].
Proof. reflexivity. Qed.

End DerivedLists.

(** ** The handlers of the library view *)

Section LibraryHandlers.
Import Types App.

Lemma sort_newestFirst_Sorted (l : list Question) :
  Sorted not_older (Js.sort_by newestFirst l).
Proof.
  apply sort_by_Sorted; intros a b; unfold newestFirst, not_older.
  - intros H. apply Z.leb_le in H. lia.
  - intros H. apply Z.leb_gt in H. lia.
Qed.

(** [prev.filter(q => q.id !== key)] as a filter by a proposition. *)
Lemma filter_other_ids (key : string) (l : list Question) :
  List.filter (fun q => negb (String.eqb (id q) key)) l
  = filter (fun q => id q <> key) l.
Proof.
  apply List_filter_reflect. intros q. rewrite negb_true_iff.
  by destruct (String.eqb_spec (id q) key).
Qed.

Lemma single_run (e : Db.Engine) :
  carries_out e
  \/ (exists rej, forall q k s,
        Db.getAllQuestions e s = (Db.Rejected rej, s)
        /\ Db.addQuestionToDB q e s = (Db.Rejected rej, s)
        /\ Db.deleteQuestionFromDB k e s = (Db.Rejected rej, s)
        /\ Db.clearAllQuestions e s = (Db.Rejected rej, s))
  \/ (Db.open_fails e = false /\ Db.request_error e 0 = None
      /\ exists err, Db.commit_error e = Some err).
Proof.
  destruct (Db.open_fails e) eqn:Ho.
  { right. left. exists (Db.RejString "IndexedDB error"). intros q k s.
    by rewrite getAllQuestions_run, addQuestionToDB_run,
      deleteQuestionFromDB_run, clearAllQuestions_run, Ho. }
  destruct (Db.request_error e 0) as [err |] eqn:Hr.
  { right. left. exists (Db.RejError (Some err)). intros q k s.
    by rewrite getAllQuestions_run, addQuestionToDB_run,
      deleteQuestionFromDB_run, clearAllQuestions_run, Ho, Hr. }
  destruct (Db.commit_error e) as [err |] eqn:Hc.
  - right. right. eauto.
  - by left.
Qed.

(** X8.  [loadData] never writes.  When the fetch resolves, the list shown
    is the stored records ordered newest first and loading is over; when it
    is rejected, the list and the alerts are as before and loading is over
    as well. *)
Theorem loadData_shows_store (e : Db.Engine) (s : Db.Store) (st : AppState) :
  let r := loadData e s st in
  r.1 = s
  /\ (Db.open_fails e = false -> Db.request_error e 0 = None ->
      coherent (questions r.2) s
      /\ Sorted not_older (questions r.2)
      /\ isLoading r.2 = false /\ alerts r.2 = alerts st)
  /\ (Db.open_fails e = true \/ Db.request_error e 0 <> None ->
      questions r.2 = questions st /\ isLoading r.2 = false
      /\ alerts r.2 = alerts st).
Proof.
  cbv zeta. unfold loadData. rewrite getAllQuestions_run.
  destruct (Db.open_fails e); simpl.
  - split; [done |]. split; [done |]. by intros _.
  - destruct (Db.request_error e 0) as [err |]; simpl.
    + split; [done |]. split; [done |]. by intros _.
    + split; [done |]. split.
      * intros _ _. split; [apply sort_by_Permutation |].
        split; [apply sort_newestFirst_Sorted | done].
      * intros [? | ?]; done.
Qed.

Lemma loadData_shows_store_witness :
  let q := question_with "q1" ["calculus"] [] (YearNum 2020) in
  questions (loadData Db.healthy (<[id q := q]> ∅)
               {| questions := []; isLoading := true; keepMetadata := false;
                  lastUsedMetadata := None; alerts := [] |}).2
  ≡ₚ Db.records (<[id q := q]> ∅).
Proof.
  intros q.
  by apply (proj1 (proj2 (loadData_shows_store Db.healthy (<[id q := q]> ∅) _))).
Defined.

(** X9.  [handleSaveQuestion], when the engine carries the write out: the
    record is stored; the list shown holds the saved record, no other record
    with its identifier, and the other records as before, ordered newest
    first; the remembered metadata are those of the saved record when the
    setting is on and unchanged otherwise.  When the write is rejected
    nothing changes except for one alert. *)
Theorem handleSaveQuestion_spec (q : Question) (e : Db.Engine) (s : Db.Store)
    (st : AppState) :
  let r := handleSaveQuestion q e s st in
  (carries_out e ->
   r.1 = <[id q := q]> s
   /\ questions r.2 ≡ₚ q :: filter (fun x => id x <> id q) (questions st)
   /\ filter (fun x => id x = id q) (questions r.2) = [q]
   /\ Sorted not_older (questions r.2)
   /\ lastUsedMetadata r.2 =
        (if keepMetadata st then
           Some {| m_year := year q; m_month := month q;
                   m_keywords := keywords q; m_topics := topics q;
                   m_paperType := paperType q; m_difficulty := difficulty q |}
         else lastUsedMetadata st)
   /\ alerts r.2 = alerts st /\ keepMetadata r.2 = keepMetadata st)
  /\ (forall rej, (Db.addQuestionToDB q e s).1 = Db.Rejected rej ->
      r.1 = s /\ questions r.2 = questions st
      /\ lastUsedMetadata r.2 = lastUsedMetadata st
      /\ alerts r.2 = alerts st ++ ["Failed to save question to database."]).
Proof.
  cbv zeta. unfold handleSaveQuestion. split.
  - intros (Ho & Hr & Hc). rewrite addQuestionToDB_run, Ho, Hr, Hc.
    assert (Js.sort_by newestFirst
              (q :: filter (fun x => id x <> id q) (questions st))
            ≡ₚ q :: filter (fun x => id x <> id q) (questions st)) as Hperm
      by apply sort_by_Permutation.
    assert (filter (fun x => id x = id q)
              (Js.sort_by newestFirst
                 (q :: filter (fun x => id x <> id q) (questions st))) = [q])
      as Hone.
    { apply Permutation_singleton_r. rewrite Hperm.
      rewrite filter_cons_True by done.
      rewrite (filter_none (fun x => id x = id q)); [done |].
      intros z Hz. by apply list_elem_of_filter in Hz as [Hne _]. }
    destruct (keepMetadata st) eqn:Hk; cbn -[Js.sort_by filter];
      rewrite filter_other_ids;
      (split; [done |]); (split; [done |]); (split; [done |]);
      (split; [apply sort_newestFirst_Sorted | done]).
  - intros rej. destruct (Db.addQuestionToDB q e s) as [[| [] | rej'] s'] eqn:E;
      simpl; try done.
    intros _. pose proof (proj1 (proj2 (rejection_unchanged e s)) q rej') as Hs.
    rewrite E in Hs. simpl in Hs. by rewrite Hs.
Qed.

Lemma handleSaveQuestion_spec_witness :
  let q := question_with "q1" ["calculus"] ["A.1"] (YearNum 2020) in
  let st := {| questions := [question_with "q1" [] [] YearUnknown];
               isLoading := false; keepMetadata := true;
               lastUsedMetadata := None; alerts := [] |} in
  filter (fun x => id x = "q1") (questions (handleSaveQuestion q Db.healthy ∅ st).2)
  = [q].
Proof.
  intros q st.
  apply (proj1 (handleSaveQuestion_spec q Db.healthy ∅ st) carries_out_healthy).
Defined.

(** What the handlers come to in the two cases that matter. *)
Lemma handleSaveQuestion_ok (q : Question) (e : Db.Engine) (s : Db.Store)
    (st : AppState) :
  carries_out e ->
  (handleSaveQuestion q e s st).1 = <[id q := q]> s
  /\ questions (handleSaveQuestion q e s st).2
     = Js.sort_by newestFirst
         (q :: filter (fun x => id x <> id q) (questions st)).
Proof.
  intros (Ho & Hr & Hc). unfold handleSaveQuestion.
  rewrite addQuestionToDB_run, Ho, Hr, Hc.
  destruct (keepMetadata st); cbn -[Js.sort_by filter];
    by rewrite filter_other_ids.
Qed.

Lemma handleDeleteQuestion_ok (key : string) (e : Db.Engine) (s : Db.Store)
    (st : AppState) :
  carries_out e ->
  handleDeleteQuestion key true e s st
  = (delete key s,
     setQuestions (filter (fun x => id x <> key) (questions st)) st).
Proof.
  intros (Ho & Hr & Hc). unfold handleDeleteQuestion.
  rewrite deleteQuestionFromDB_run, Ho, Hr, Hc. cbn -[filter].
  by rewrite filter_other_ids.
Qed.

(** X10.  [handleDeleteQuestion] does nothing unless the user confirms.
    When the engine carries the delete out, the record is removed from the
    store and from the list shown, and all else is as before.  A rejected
    delete changes nothing and raises no alert. *)
Theorem handleDeleteQuestion_spec (key : string) (confirmed : bool)
    (e : Db.Engine) (s : Db.Store) (st : AppState) :
  let r := handleDeleteQuestion key confirmed e s st in
  (confirmed = false -> r = (s, st))
  /\ (confirmed = true -> carries_out e ->
      r.1 = delete key s
      /\ questions r.2 = filter (fun x => id x <> key) (questions st)
      /\ (forall x, x ∈ questions r.2 -> id x <> key)
      /\ alerts r.2 = alerts st /\ isLoading r.2 = isLoading st)
  /\ (forall rej, (Db.deleteQuestionFromDB key e s).1 = Db.Rejected rej ->
      r = (s, st)).
Proof.
  cbv zeta. split; [by intros -> | split].
  - intros -> Hok. rewrite (handleDeleteQuestion_ok key e s st Hok).
    cbn -[filter]. repeat split.
    intros x Hx. by apply list_elem_of_filter in Hx as [? _].
  - intros rej Hrej. unfold handleDeleteQuestion.
    destruct confirmed; [| done].
    pose proof (proj1 (proj2 (proj2 (proj2 (rejection_unchanged e s)))) key rej Hrej)
      as Hs.
    destruct (Db.deleteQuestionFromDB key e s) as [p s']. simpl in *.
    by subst.
Qed.

Lemma handleDeleteQuestion_spec_witness :
  let q := question_with "q1" ["calculus"] [] (YearNum 2020) in
  let st := {| questions := [q]; isLoading := false; keepMetadata := false;
               lastUsedMetadata := None; alerts := [] |} in
  questions (handleDeleteQuestion "q1" true Db.healthy (<[id q := q]> ∅) st).2 = []
  /\ handleDeleteQuestion "q1" false Db.healthy (<[id q := q]> ∅) st
     = (<[id q := q]> ∅, st).
Proof.
  intros q st.
  destruct (handleDeleteQuestion_spec "q1" true Db.healthy (<[id q := q]> ∅) st)
    as (_ & Hyes & _).
  destruct (handleDeleteQuestion_spec "q1" false Db.healthy (<[id q := q]> ∅) st)
    as (Hno & _).
  split; [| by apply Hno].
  destruct (Hyes eq_refl carries_out_healthy) as (_ & -> & _). reflexivity.
Defined.

(** X11.  [handleClearLibrary] does nothing when the list shown is empty or
    when either confirmation is refused.  Otherwise, when the engine carries
    the clear out, the store and the list are empty and loading is over;
    when the clear is rejected, nothing changes except for one alert. *)
Theorem handleClearLibrary_spec (confirmed1 confirmed2 : bool) (e : Db.Engine)
    (s : Db.Store) (st : AppState) :
  let r := handleClearLibrary confirmed1 confirmed2 e s st in
  (questions st = [] \/ confirmed1 = false \/ confirmed2 = false -> r = (s, st))
  /\ (questions st <> [] -> confirmed1 = true -> confirmed2 = true ->
      (carries_out e ->
       r.1 = ∅ /\ questions r.2 = [] /\ isLoading r.2 = false
       /\ alerts r.2 = alerts st)
      /\ (forall rej, (Db.clearAllQuestions e s).1 = Db.Rejected rej ->
          r.1 = s /\ questions r.2 = questions st /\ isLoading r.2 = false
          /\ alerts r.2
             = alerts st ++ ["An error occurred while clearing the database."])).
Proof.
  cbv zeta. unfold handleClearLibrary. split.
  - intros [Hq | [-> | ->]].
    + by rewrite Hq.
    + by destruct (length (questions st) =? 0)%nat.
    + destruct (length (questions st) =? 0)%nat; [done |]. by destruct confirmed1.
  - intros Hq -> ->.
    assert ((length (questions st) =? 0)%nat = false) as ->
      by by destruct (questions st).
    split.
    + intros (Ho & Hr & Hc). by rewrite clearAllQuestions_run, Ho, Hr, Hc.
    + intros rej Hrej.
      pose proof (proj2 (proj2 (proj2 (proj2 (rejection_unchanged e s)))) rej Hrej)
        as Hs.
      destruct (Db.clearAllQuestions e s) as [p s']. simpl in *. by subst.
Qed.

Lemma handleClearLibrary_spec_witness :
  let q := question_with "q1" ["calculus"] [] (YearNum 2020) in
  let st := {| questions := [q]; isLoading := false; keepMetadata := false;
               lastUsedMetadata := None; alerts := [] |} in
  (handleClearLibrary true true Db.healthy (<[id q := q]> ∅) st).1 = ∅
  /\ handleClearLibrary true false Db.healthy (<[id q := q]> ∅) st
     = (<[id q := q]> ∅, st).
Proof.
  intros q st.
  destruct (handleClearLibrary_spec true true Db.healthy (<[id q := q]> ∅) st)
    as (_ & Hyes).
  destruct (handleClearLibrary_spec true false Db.healthy (<[id q := q]> ∅) st)
    as (Hno & _).
  split; [| apply Hno; by right; right].
  apply Hyes; [done | done | done | apply carries_out_healthy].
Defined.

(** X12.  As long as no transaction fails at commit time, the four handlers
    keep the list shown in step with the store: if it shows the stored
    records before a save, a delete, a clear or a load, it does so after,
    whether the call went through or was rejected. *)
Theorem handlers_keep_coherent (e : Db.Engine) (s : Db.Store) (st : AppState) :
  store_wf s -> coherent (questions st) s -> Db.commit_error e = None ->
  (forall q,
     let r := handleSaveQuestion q e s st in coherent (questions r.2) r.1)
  /\ (forall key confirmed,
        let r := handleDeleteQuestion key confirmed e s st in
        coherent (questions r.2) r.1)
  /\ (forall confirmed1 confirmed2,
        let r := handleClearLibrary confirmed1 confirmed2 e s st in
        coherent (questions r.2) r.1)
  /\ (let r := loadData e s st in coherent (questions r.2) r.1).
Proof.
  intros Hwf Hcoh Hc. unfold coherent in *. cbv zeta.
  destruct (single_run e) as [Hok | [(rej & Hrej) | (_ & _ & err & Herr)]];
    [| | congruence].
  - split; [| split; [| split]].
    + intros q. destruct (handleSaveQuestion_ok q e s st Hok) as [-> ->].
      by rewrite sort_by_Permutation, Hcoh, records_insert.
    + intros key [|]; [| done].
      rewrite (handleDeleteQuestion_ok key e s st Hok). cbn -[filter].
      by rewrite Hcoh, records_delete.
    + intros c1 c2. unfold handleClearLibrary.
      destruct (length (questions st) =? 0)%nat; [done |].
      destruct c1; [| done]. destruct c2; [| done].
      destruct Hok as (Ho & Hr & _).
      rewrite clearAllQuestions_run, Ho, Hr, Hc. simpl. by rewrite records_empty.
    + unfold loadData. destruct Hok as (Ho & Hr & _).
      rewrite getAllQuestions_run, Ho, Hr. cbn -[Js.sort_by].
      apply sort_by_Permutation.
  - split; [| split; [| split]].
    + intros q. unfold handleSaveQuestion.
      by rewrite (proj1 (proj2 (Hrej q "" s))).
    + intros key [|]; [| done]. unfold handleDeleteQuestion.
      by rewrite (proj1 (proj2 (proj2 (Hrej (question_with "" [] [] YearUnknown) key s)))).
    + intros c1 c2. unfold handleClearLibrary.
      destruct (length (questions st) =? 0)%nat; [done |].
      destruct c1; [| done]. destruct c2; [| done].
      by rewrite (proj2 (proj2 (proj2 (Hrej (question_with "" [] [] YearUnknown) "" s)))).
    + unfold loadData.
      by rewrite (proj1 (Hrej (question_with "" [] [] YearUnknown) "" s)).
Qed.

Lemma handlers_keep_coherent_witness :
  let q := question_with "q1" ["calculus"] [] (YearNum 2020) in
  let q' := question_with "q1" ["calculus"] ["A.1"] (YearNum 2020) in
  let st := {| questions := [q]; isLoading := false; keepMetadata := false;
               lastUsedMetadata := None; alerts := [] |} in
  coherent (questions (handleSaveQuestion q' Db.healthy (<[id q := q]> ∅) st).2)
    (handleSaveQuestion q' Db.healthy (<[id q := q]> ∅) st).1.
Proof.
  intros q q' st.
  apply (handlers_keep_coherent Db.healthy (<[id q := q]> ∅) st).
  - apply store_wf_insert, store_wf_empty.
  - by vm_compute.
  - reflexivity.
Defined.

End LibraryHandlers.

(** ** The auto-tagger and the store *)

Section AutoTagStore.
Import Types TopicTaggerModal App.

Lemma List_filter_sublist {A} (f : A -> bool) (l : list A) :
  List.filter f l `sublist_of` l.
Proof.
  induction l as [| x l IH]; [done |]. simpl.
  destruct (f x); [by apply sublist_skip | by apply sublist_cons].
Qed.

Lemma affectedQuestions_sublist (qs : list Question) (t : string)
    (kws : list string) :
  affectedQuestions qs t kws `sublist_of` qs.
Proof.
  unfold affectedQuestions.
  destruct (negb (Js.truthy_str t) || (length kws =? 0)%nat).
  - apply sublist_nil_l.
  - apply List_filter_sublist.
Qed.

Lemma handleApply_ids (qs : list Question) (t : string) (kws : list string) :
  id <$> handleApply qs t kws = id <$> affectedQuestions qs t kws.
Proof.
  unfold handleApply.
  induction (affectedQuestions qs t kws) as [| q l IH]; [done |].
  simpl. f_equal. exact IH.
Qed.

Lemma NoDup_fmap_eq {A B} (f : A -> B) (l : list A) (x y : A) :
  NoDup (f <$> l) -> x ∈ l -> y ∈ l -> f x = f y -> x = y.
Proof.
  induction l as [| z l IH]; intros Hnd Hx Hy Hxy.
  - by apply elem_of_nil in Hx.
  - rewrite fmap_cons in Hnd. apply NoDup_cons in Hnd as [Hz Hnd].
    apply elem_of_cons in Hx as [-> | Hx]; apply elem_of_cons in Hy as [-> | Hy].
    + done.
    + destruct Hz. rewrite Hxy. by apply list_elem_of_fmap_2.
    + destruct Hz. rewrite <- Hxy. by apply list_elem_of_fmap_2.
    + by apply IH.
Qed.

Lemma put_all_lookup_NoDup (us : list Question) (s : Db.Store) (u : Question) :
  NoDup (id <$> us) -> u ∈ us -> put_all s us !! id u = Some u.
Proof.
  intros Hnd Hu. destruct (put_all_lookup us s u Hu) as (u' & Hu' & Hid & ->).
  f_equal. by apply (NoDup_fmap_eq id us).
Qed.

(** After a bulk write that went through, the merged list shows the store. *)
Lemma replaceUpdated_records (qs : list Question) (t : string)
    (kws : list string) (s : Db.Store) :
  store_wf s -> coherent qs s ->
  replaceUpdated (handleApply qs t kws) qs
  ≡ₚ Db.records (put_all s (handleApply qs t kws)).
Proof.
  intros Hwf Hcoh. unfold coherent in Hcoh.
  set (us := handleApply qs t kws).
  assert (NoDup (id <$> qs)) as Hids.
  { rewrite Hcoh. by apply records_ids_NoDup. }
  assert (forall q, q ∈ qs -> s !! id q = Some q) as Hstored.
  { intros q Hq. apply elem_of_records_wf; [done |]. by rewrite <- Hcoh. }
  assert (forall u, u ∈ us -> exists q, q ∈ qs /\ id q = id u) as Hfrom.
  { intros u Hu. unfold us, handleApply in Hu.
    apply list_elem_of_fmap in Hu as (q & -> & Hq). exists q. split; [| done].
    eapply elem_of_sublist; [done | apply affectedQuestions_sublist]. }
  assert (NoDup (id <$> us)) as Hus.
  { unfold us. rewrite handleApply_ids.
    apply (sublist_NoDup _ _ Hids), fmap_sublist, affectedQuestions_sublist. }
  set (g := fun q : Question =>
              if Js.includes (map id us) (id q) then
                match List.find (fun uq => String.eqb (id uq) (id q)) us with
                | Some uq => uq
                | None => q
                end
              else q).
  assert (forall q, q ∈ qs -> put_all s us !! id q = Some (g q) /\ id (g q) = id q)
    as Hg.
  { intros q Hq. unfold g.
    destruct (Js.includes (map id us) (id q)) eqn:Hin.
    - destruct (find_updated _ _ Hin) as (uq & -> & Huq & Hid).
      split; [| done]. rewrite <- Hid. by apply put_all_lookup_NoDup.
    - split; [| done]. apply includes_false in Hin.
      rewrite put_all_lookup_other by done. by apply Hstored. }
  assert (store_wf (put_all s us)) as Hwf' by by apply store_wf_put_all.
  change (replaceUpdated us qs) with (g <$> qs).
  apply NoDup_Permutation.
  - apply (NoDup_fmap_1 id). rewrite <- list_fmap_compose.
    rewrite (list_fmap_ext (id ∘ g) id qs); [done |].
    intros i q Hi. simpl. apply Hg. by eapply list_elem_of_lookup_2.
  - by apply records_NoDup.
  - intros x. rewrite elem_of_records_wf by done. split.
    + intros Hx. apply list_elem_of_fmap in Hx as (q & -> & Hq).
      destruct (Hg q Hq) as [Hl Hid]. by rewrite Hid.
    + intros Hx.
      assert (exists q, q ∈ qs /\ id q = id x) as (q & Hq & Hid).
      { destruct (decide (id x ∈ id <$> us)) as [Hin | Hout].
        - apply list_elem_of_fmap in Hin as (u & Hu & Huin).
          destruct (Hfrom u Huin) as (q & Hq & Hqid). exists q.
          split; [done | congruence].
        - rewrite put_all_lookup_other in Hx by done. exists x.
          split; [| done]. rewrite Hcoh. by apply elem_of_records_wf. }
      destruct (Hg q Hq) as [Hl _]. rewrite Hid, Hx in Hl.
      injection Hl as ->. by apply list_elem_of_fmap_2.
Qed.

(** X13.  Applying the auto-tag rule keeps the list shown in step with the
    store under every behaviour of the engine: when the bulk write goes
    through both hold the updated records, and when it is rejected both are
    as before. *)
Theorem handleAutoTag_keeps_coherent (qs : list Question) (t : string)
    (kws : list string) (e : Db.Engine) (s : Db.Store) :
  store_wf s -> coherent qs s ->
  let r := handleAutoTag (handleApply qs t kws) e s qs in
  coherent r.2 r.1
  /\ (r = (s, qs)
      \/ r = (put_all s (handleApply qs t kws),
              replaceUpdated (handleApply qs t kws) qs)).
Proof.
  intros Hwf Hcoh. cbv zeta. unfold handleAutoTag.
  destruct (bulkUpdateQuestions_run (handleApply qs t kws) e s)
    as [[_ ->] | [(_ & _ & ->) | [(_ & _ & err & _ & ->) | (_ & _ & _ & ->)]]];
    simpl; try (split; [done | by left]).
  split; [| by right]. by apply replaceUpdated_records.
Qed.

Lemma handleAutoTag_keeps_coherent_witness :
  let q1 := question_with "q1" ["waves"] [] (YearNum 2020) in
  let q2 := question_with "q2" ["forces"] [] (YearNum 2020) in
  let s : Db.Store := <[id q2 := q2]> (<[id q1 := q1]> ∅) in
  let r := handleAutoTag (handleApply [q1; q2] "B.4" ["waves"])
             (Db.failing_at 0 "QuotaExceededError") s [q1; q2] in
  coherent r.2 r.1.
Proof.
  intros q1 q2 s r.
  apply (handleAutoTag_keeps_coherent [q1; q2] "B.4" ["waves"]).
  - apply store_wf_insert, store_wf_insert, store_wf_empty.
  - by vm_compute.
Defined.

End AutoTagStore.

(** ** Filtering and the tri-state toggles together *)

Section FilterAndToggles.
Import Types App.

Lemma includes_all_iff (l tags : list string) :
  includes_all l tags <-> forall x, x ∈ l -> x ∈ tags.
Proof.
  unfold includes_all. split; [| by right].
  intros [-> | H]; [| done]. intros x Hx. by apply elem_of_nil in Hx.
Qed.

Lemma excludes_all_iff (l tags : list string) :
  excludes_all l tags <-> forall x, x ∈ l -> x ∉ tags.
Proof.
  unfold excludes_all. split; [| by right].
  intros [-> | H]; [| done]. intros x Hx. by apply elem_of_nil in Hx.
Qed.

Lemma includes_all_snoc (l tags : list string) (k : string) :
  includes_all (l ++ [k]) tags <-> includes_all l tags /\ k ∈ tags.
Proof.
  rewrite !includes_all_iff. setoid_rewrite elem_of_app.
  setoid_rewrite list_elem_of_singleton. split.
  - intros H. split; [intros x Hx; apply H; by left | apply H; by right].
  - intros [H Hk] x [Hx | ->]; [by apply H | done].
Qed.

Lemma excludes_all_snoc (l tags : list string) (k : string) :
  excludes_all (l ++ [k]) tags <-> excludes_all l tags /\ k ∉ tags.
Proof.
  rewrite !excludes_all_iff. setoid_rewrite elem_of_app.
  setoid_rewrite list_elem_of_singleton. split.
  - intros H. split; [intros x Hx; apply H; by left | apply H; by right].
  - intros [H Hk] x [Hx | ->]; [by apply H | done].
Qed.

(** The filter callback in terms of the conditions it stands for. *)
Lemma passesFilter_spec (f : FilterState) (q : Question) :
  passesFilter f q = true <->
  passesTextAndCategorical f q = true
  /\ includes_all (includedKeywords f) (keywords q)
  /\ excludes_all (excludedKeywords f) (keywords q)
  /\ includes_all (includedTopics f) (topics_or_empty q)
  /\ excludes_all (excludedTopics f) (topics_or_empty q).
Proof.
  by rewrite passesFilter_split, andb_true_iff, passesTagConstraints_spec.
Qed.

Lemma filteredQuestions_filter (qs : list Question) (f : FilterState) :
  filteredQuestions qs f = filter (fun q => passesFilter f q = true) qs.
Proof. unfold filteredQuestions. by apply List_filter_reflect. Qed.

Lemma textAndCategorical_frame (f f' : FilterState) (q : Question) :
  f_year f' = f_year f -> f_paperType f' = f_paperType f ->
  f_difficulty f' = f_difficulty f -> searchQuery f' = searchQuery f ->
  passesTextAndCategorical f' q = passesTextAndCategorical f q.
Proof.
  intros Hy Hp Hd Hs.
  unfold passesTextAndCategorical, matchesSearch, matchesType, matchesYear,
    matchesDifficulty.
  by rewrite Hy, Hp, Hd, Hs.
Qed.

(** One step of the cycle on the callback, for a tag that is neutral. *)
Lemma toggleKeywordFilter_passes (k : string) (f : FilterState) (q : Question) :
  k ∉ includedKeywords f -> k ∉ excludedKeywords f ->
  (passesFilter (toggleKeywordFilter k f) q = true
   <-> passesFilter f q = true /\ k ∈ keywords q)
  /\ (passesFilter (toggleKeywordFilter k (toggleKeywordFilter k f)) q = true
      <-> passesFilter f q = true /\ k ∉ keywords q).
Proof.
  intros Hi He.
  destruct (toggleKeywordFilter_lists k f) as (_ & _ & H3).
  destruct (H3 Hi He) as [Ei Ee].
  destruct (toggleKeywordFilter_frame k f) as (E1 & E2 & E3 & E4 & E5 & E6).
  set (f1 := toggleKeywordFilter k f) in *.
  destruct (toggleKeywordFilter_lists k f1) as (H1' & _ & _).
  destruct H1' as [Ei' Ee'].
  { rewrite Ei. apply elem_of_app. right. by apply list_elem_of_singleton. }
  destruct (toggleKeywordFilter_frame k f1) as (F1 & F2 & F3 & F4 & F5 & F6).
  rewrite Ei, without_snoc, (without_id _ _ Hi) in Ei'. rewrite Ee in Ee'.
  rewrite !passesFilter_spec.
  rewrite (textAndCategorical_frame f f1 q) by done.
  rewrite (textAndCategorical_frame f (toggleKeywordFilter k f1) q) by congruence.
  rewrite Ei, Ee, E1, E2, Ei', Ee', F1, F2, E1, E2.
  rewrite includes_all_snoc, excludes_all_snoc. tauto.
Qed.

Lemma toggleTopicFilter_passes (t : string) (f : FilterState) (q : Question) :
  t ∉ includedTopics f -> t ∉ excludedTopics f ->
  (passesFilter (toggleTopicFilter t f) q = true
   <-> passesFilter f q = true /\ t ∈ topics_or_empty q)
  /\ (passesFilter (toggleTopicFilter t (toggleTopicFilter t f)) q = true
      <-> passesFilter f q = true /\ t ∉ topics_or_empty q).
Proof.
  intros Hi He.
  destruct (toggleTopicFilter_lists t f) as (_ & _ & H3).
  destruct (H3 Hi He) as [Ei Ee].
  destruct (toggleTopicFilter_frame t f) as (E1 & E2 & E3 & E4 & E5 & E6).
  set (f1 := toggleTopicFilter t f) in *.
  destruct (toggleTopicFilter_lists t f1) as (H1' & _ & _).
  destruct H1' as [Ei' Ee'].
  { rewrite Ei. apply elem_of_app. right. by apply list_elem_of_singleton. }
  destruct (toggleTopicFilter_frame t f1) as (F1 & F2 & F3 & F4 & F5 & F6).
  rewrite Ei, without_snoc, (without_id _ _ Hi) in Ei'. rewrite Ee in Ee'.
  rewrite !passesFilter_spec.
  rewrite (textAndCategorical_frame f f1 q) by done.
  rewrite (textAndCategorical_frame f (toggleTopicFilter t f1) q) by congruence.
  rewrite Ei, Ee, E1, E2, Ei', Ee', F1, F2, E1, E2.
  rewrite includes_all_snoc, excludes_all_snoc. tauto.
Qed.

(** X14.  Clicking a neutral tag once narrows the view to the records of
    the current view that carry the tag; clicking it again shows instead the
    records of that view that do not carry it; a third click gives the view
    back.  The order of the records is kept.  Keywords and topics alike. *)
Theorem toggle_splits_view (qs : list Question) (k : string) (f : FilterState) :
  (k ∉ includedKeywords f -> k ∉ excludedKeywords f ->
   let f1 := toggleKeywordFilter k f in
   let f2 := toggleKeywordFilter k f1 in
   filteredQuestions qs f1
   = filter (fun q => k ∈ keywords q) (filteredQuestions qs f)
   /\ filteredQuestions qs f2
      = filter (fun q => k ∉ keywords q) (filteredQuestions qs f)
   /\ filteredQuestions qs (toggleKeywordFilter k f2) = filteredQuestions qs f)
  /\ (k ∉ includedTopics f -> k ∉ excludedTopics f ->
      let f1 := toggleTopicFilter k f in
      let f2 := toggleTopicFilter k f1 in
      filteredQuestions qs f1
      = filter (fun q => k ∈ topics_or_empty q) (filteredQuestions qs f)
      /\ filteredQuestions qs f2
         = filter (fun q => k ∉ topics_or_empty q) (filteredQuestions qs f)
      /\ filteredQuestions qs (toggleTopicFilter k f2) = filteredQuestions qs f).
Proof.
  split; intros Hi He; cbv zeta.
  - split; [| split].
    + rewrite !filteredQuestions_filter, list_filter_filter.
      apply list_filter_iff. intros q.
      rewrite (proj1 (toggleKeywordFilter_passes k f q Hi He)). tauto.
    + rewrite !filteredQuestions_filter, list_filter_filter.
      apply list_filter_iff. intros q.
      rewrite (proj2 (toggleKeywordFilter_passes k f q Hi He)). tauto.
    + by rewrite toggleKeywordFilter_cycle.
  - split; [| split].
    + rewrite !filteredQuestions_filter, list_filter_filter.
      apply list_filter_iff. intros q.
      rewrite (proj1 (toggleTopicFilter_passes k f q Hi He)). tauto.
    + rewrite !filteredQuestions_filter, list_filter_filter.
      apply list_filter_iff. intros q.
      rewrite (proj2 (toggleTopicFilter_passes k f q Hi He)). tauto.
    + by rewrite toggleTopicFilter_cycle.
Qed.

Lemma toggle_splits_view_witness :
  let qs := [question_with "q1" ["waves"] [] (YearNum 2020);
             question_with "q2" ["forces"] [] (YearNum 2020);
             question_with "q3" ["waves"; "optics"] [] YearUnknown] in
  filteredQuestions qs (toggleKeywordFilter "waves" initialFilter)
  = filter (fun q => "waves" ∈ keywords q) (filteredQuestions qs initialFilter).
Proof.
  intros qs.
  apply (proj1 (toggle_splits_view qs "waves" initialFilter));
    apply not_elem_of_nil.
Defined.

Lemma passesFilter_initial (q : Question) : passesFilter initialFilter q = true.
Proof. reflexivity. Qed.

(** X15.  The view is a sub-list of the library: records are only left out,
    never added, repeated or reordered.  With the initial filter nothing is
    left out, and filtering a view again with the same filter changes
    nothing. *)
Theorem filteredQuestions_view (qs : list Question) (f : FilterState) :
  filteredQuestions qs f `sublist_of` qs
  /\ filteredQuestions qs initialFilter = qs
  /\ filteredQuestions (filteredQuestions qs f) f = filteredQuestions qs f.
Proof.
  split; [apply List_filter_sublist | split].
  - unfold filteredQuestions. induction qs as [| q qs IH]; [done |].
    cbn [List.filter]. by rewrite passesFilter_initial, IH.
  - rewrite !filteredQuestions_filter, list_filter_filter.
    apply list_filter_iff. tauto.
Qed.

End FilterAndToggles.

(** ** Tag inputs *)

Section TagInputs.
Import Types.

Lemma trimStart_head (s : string) (c : ascii) (r : string) :
  Js.trimStart s = String c r -> Js.isWhiteSpace c = false.
Proof.
  induction s as [| d s IH]; simpl; [done |].
  destruct (Js.isWhiteSpace d) eqn:E; [done |]. by intros [= <- _].
Qed.

Lemma trimStart_id (s : string) :
  (forall c r, s = String c r -> Js.isWhiteSpace c = false) ->
  Js.trimStart s = s.
Proof.
  destruct s as [| c r]; [done |]. intros H. simpl.
  by rewrite (H c r eq_refl).
Qed.

Lemma trimEnd_head (c : ascii) (r : string) :
  Js.trimEnd (String c r) = ""
  \/ exists t, Js.trimEnd (String c r) = String c t.
Proof.
  simpl. destruct (Js.trimEnd r); [| eauto].
  destruct (Js.isWhiteSpace c); eauto.
Qed.

Lemma trimEnd_idem (s : string) : Js.trimEnd (Js.trimEnd s) = Js.trimEnd s.
Proof.
  induction s as [| c s IH]; [done |]. simpl.
  destruct (Js.trimEnd s) as [| d t] eqn:E.
  - destruct (Js.isWhiteSpace c) eqn:Hc; [done |]. simpl. by rewrite Hc.
  - change (Js.trimEnd (String c (String d t))) with
      (match Js.trimEnd (String d t) with
       | EmptyString =>
           if Js.isWhiteSpace c then EmptyString else String c EmptyString
       | u => String c u
       end).
    by rewrite IH.
Qed.

Lemma trim_idem (s : string) : Js.trim (Js.trim s) = Js.trim s.
Proof.
  unfold Js.trim.
  rewrite (trimStart_id (Js.trimEnd (Js.trimStart s))); [apply trimEnd_idem |].
  intros c r Hc. destruct (Js.trimStart s) as [| d u] eqn:E; [done |].
  destruct (trimEnd_head d u) as [H | [t H]]; rewrite H in Hc; [done |].
  injection Hc as <- _. by eapply trimStart_head.
Qed.

(** What a key press adds to a tag list. *)
Lemma add_typed_NoDup (l : list string) (input : string) :
  NoDup l ->
  Js.truthy_str (Js.trim input) && negb (Js.includes l (Js.trim input)) = true ->
  NoDup (l ++ [Js.trim input])
  /\ Js.trim input <> "" /\ trimmed (Js.trim input) /\ Js.trim input ∉ l.
Proof.
  intros Hnd H. apply andb_true_iff in H as [Ht Hn].
  apply truthy_str_true in Ht. apply negb_true_iff, includes_false in Hn.
  split; [| split; [done | split; [apply trim_idem | done]]].
  apply NoDup_app. split; [done |]. split; [| apply NoDup_singleton].
  intros x Hx Hx'. by apply list_elem_of_singleton in Hx' as ->.
Qed.

Lemma remove_NoDup (k : string) (l : list string) :
  NoDup l ->
  NoDup (List.filter (fun kw => negb (String.eqb kw k)) l)
  /\ (forall x, x ∈ List.filter (fun kw => negb (String.eqb kw k)) l
                <-> x ∈ l /\ x <> k).
Proof.
  intros Hnd. split.
  - eapply sublist_NoDup; [exact Hnd | apply List_filter_sublist].
  - intros x. apply (elem_of_without k x l).
Qed.

Lemma elem_of_take_filter (f : string -> bool) (n : nat) (l : list string)
    (x : string) :
  x ∈ take n (List.filter f l) -> x ∈ l /\ f x = true.
Proof.
  intros Hx. apply elem_of_take in Hx as (i & Hi & _).
  apply list_elem_of_lookup_2, list_elem_of_In, filter_In in Hi as [Hin Hf].
  split; [by apply list_elem_of_In | done].
Qed.

Lemma pick_NoDup (f : string -> bool) (l existing : list string) (k : string) :
  NoDup l ->
  (forall x, f x = true -> x ∉ l) ->
  k ∈ take 5 (List.filter f existing) ->
  NoDup (l ++ [k]) /\ k ∈ existing.
Proof.
  intros Hnd Hf Hk. apply elem_of_take_filter in Hk as [Hin Hfk].
  split; [| done]. apply NoDup_app. split; [done |].
  split; [| apply NoDup_singleton].
  intros x Hx Hx'. apply list_elem_of_singleton in Hx' as ->. by apply (Hf k).
Qed.



End TagInputs.

(** ** The auto-tagger form *)

Section TaggerForm.
Import Types TopicTaggerModal.





End TaggerForm.

(** ** The question form *)

Section QuestionForm.
Import Types AddQuestionModal.

Lemma key_press_NoDup (l : list string) (input : string) :
  NoDup l ->
  NoDup (if Js.truthy_str (Js.trim input)
            && negb (Js.includes l (Js.trim input))
         then l ++ [Js.trim input] else l).
Proof.
  intros Hnd.
  destruct (Js.truthy_str (Js.trim input)
            && negb (Js.includes l (Js.trim input))) eqn:E; [| done].
  by apply add_typed_NoDup.
Qed.

Lemma form_tag_step_NoDup (eK eT : list string) (f f' : Form) :
  form_tag_step eK eT f f' ->
  NoDup (fm_keywords f) /\ NoDup (fm_topics f) ->
  NoDup (fm_keywords f') /\ NoDup (fm_topics f').
Proof.
  intros Hstep [Hk Ht].
  destruct Hstep as [v f | v f | b f | b f | k f | t f | k f Hinp Hin | t f Hinp Hin];
    try (by split).
  - unfold handleKeywordKeyDown. destruct b; [| by split].
    pose proof (key_press_NoDup _ (fm_keywordInput f) Hk) as H.
    destruct (Js.truthy_str (Js.trim (fm_keywordInput f))
              && negb (Js.includes (fm_keywords f) (Js.trim (fm_keywordInput f))));
      by split.
  - unfold handleTopicKeyDown. destruct b; [| by split].
    pose proof (key_press_NoDup _ (fm_topicInput f) Ht) as H.
    destruct (Js.truthy_str (Js.trim (fm_topicInput f))
              && negb (Js.includes (fm_topics f) (Js.trim (fm_topicInput f))));
      by split.
  - split; [| done]. apply (remove_NoDup k _ Hk).
  - split; [done |]. apply (remove_NoDup t _ Ht).
  - split; [| done]. simpl.
    apply (pick_NoDup _ (fm_keywords f) eK k Hk) with (2 := Hin).
    intros x Hx. apply andb_true_iff in Hx as [_ Hx].
    by apply negb_true_iff, includes_false in Hx.
  - split; [done |]. simpl.
    apply (pick_NoDup _ (fm_topics f) eT t Ht) with (2 := Hin).
    intros x Hx. apply andb_true_iff in Hx as [_ Hx].
    by apply negb_true_iff, includes_false in Hx.
Qed.

(** X18.  If the keywords and the topics of the form hold no value twice,
    then after any sequence of events on the tag inputs (typing, Tab or
    Enter, removing a chip, picking a suggestion) they still do not, and
    neither do the keywords and topics of the record that is submitted. *)
Theorem form_tags_NoDup (eK eT : list string) (f f' : Form)
    (initialQuestion : option Question) (now_id now_created : Z) :
  NoDup (fm_keywords f) -> NoDup (fm_topics f) ->
  rtc (form_tag_step eK eT) f f' ->
  NoDup (fm_keywords f') /\ NoDup (fm_topics f')
  /\ NoDup (keywords (handleSubmit initialQuestion now_id now_created f'))
  /\ NoDup (topics_or_empty (handleSubmit initialQuestion now_id now_created f')).
Proof.
  intros Hk Ht Hrun.
  assert (NoDup (fm_keywords f') /\ NoDup (fm_topics f')) as [Hk' Ht'];
    [| by repeat split].
  apply rtc_nsteps in Hrun as [n Hrun].
  assert (NoDup (fm_keywords f) /\ NoDup (fm_topics f)) as Hinv by done.
  clear Hk Ht. induction Hrun as [| n x y z Hxy Hyz IH]; [done |].
  apply IH. by eapply form_tag_step_NoDup.
Qed.

Lemma form_tags_NoDup_witness :
  let f := handleKeywordKeyDown true
             (setKeywords [] " waves" (fresh_form 1700000000000)) in
  fm_keywords f = ["waves"]
  /\ NoDup (keywords (handleSubmit None 1700000000001 1700000000001 f)).
Proof.
  intros f. split; [reflexivity |].
  apply (form_tags_NoDup [] [] (fresh_form 1700000000000) f);
    [apply NoDup_nil_2 | apply NoDup_nil_2 |].
  eapply rtc_l; [apply (form_type_keyword [] [] " waves") |].
  apply rtc_once, form_keyword_key.
Defined.

(** X19.  The record the form submits carries exactly the payload of its
    paper type: the four Paper 1 fields and no parts for Paper 1, the parts
    and none of the Paper 1 fields otherwise.  Its topics are always
    present.  When an existing question is edited the record keeps that
    question's identifier and creation time (if they are not empty and not
    zero); a new question takes both from the clock. *)
Theorem handleSubmit_record (initialQuestion : option Question)
    (now_id now_created : Z) (f : Form) :
  let q := handleSubmit initialQuestion now_id now_created f in
  (paperType q = Paper1 ->
   parts q = None
   /\ p1QuestionImage q = Some (fm_p1QuestionImage f)
   /\ p1AnswerType q = Some (fm_p1AnswerType f)
   /\ p1AnswerSelection q = Some (fm_p1AnswerSelection f)
   /\ p1AnswerImage q = Some (fm_p1AnswerImage f))
  /\ (paperType q = Paper2_1b ->
      parts q = Some (fm_parts f)
      /\ p1QuestionImage q = None /\ p1AnswerType q = None
      /\ p1AnswerSelection q = None /\ p1AnswerImage q = None)
  /\ topics q = Some (fm_topics f)
  /\ (forall q0, initialQuestion = Some q0 -> id q0 <> "" ->
      createdAt q0 <> 0%Z -> id q = id q0 /\ createdAt q = createdAt q0)
  /\ (initialQuestion = None ->
      id q = pretty now_id /\ createdAt q = now_created).
Proof.
  cbv zeta. unfold handleSubmit. simpl.
  split; [| split; [| split; [done | split]]].
  - by intros ->.
  - by intros ->.
  - intros q0 -> Hid Hc. rewrite (proj2 (truthy_str_true _) Hid).
    by rewrite (proj2 (Z.eqb_neq _ _) Hc).
  - by intros ->.
Qed.

Lemma handleSubmit_record_witness :
  let q0 := question_with "q1" ["waves"] ["B.4"] (YearNum 2020) in
  let q := handleSubmit (Some (withCreatedAt 1700000000000 q0)) 5 6
             (fresh_form 7) in
  id q = "q1" /\ createdAt q = 1700000000000%Z.
Proof.
  intros q0 q.
  by apply (proj1 (proj2 (proj2 (proj2
              (handleSubmit_record (Some (withCreatedAt 1700000000000 q0)) 5 6
                 (fresh_form 7)))))
              (withCreatedAt 1700000000000 q0)).
Defined.

(** X20.  Opening a record for editing and submitting the form untouched
    gives back the very same record, for every record as the form writes
    them. *)
Theorem edit_roundtrip (q : Question) (stickyMetadata : option App.Metadata)
    (now currentYear now_id now_created : Z) (prev : Form) :
  as_submitted q ->
  handleSubmit (Some q) now_id now_created
    (openForm (Some q) stickyMetadata now currentYear prev) = q.
Proof.
  intros (Hid & Hc & [ts Hts] & Hpayload).
  destruct q as [qid qc qk qt qd qy qm qn qp qi qat qas qai qparts].
  simpl in *. subst qt. unfold handleSubmit, openForm, topics_or_empty. simpl.
  rewrite (proj2 (truthy_str_true _) Hid), (proj2 (Z.eqb_neq _ _) Hc).
  destruct qp; simpl in *.
  - destruct Hpayload as (-> & [i ->] & Hi & [t ->] & [a ->] & [j ->] & Hj).
    simpl. f_equal.
    + destruct i as [img |]; [| done].
      rewrite (proj2 (truthy_str_true img)); [done |]. by intros ->.
    + by destruct a.
    + destruct j as [img |]; [| done].
      rewrite (proj2 (truthy_str_true img)); [done |]. by intros ->.
  - by destruct Hpayload as ([ps ->] & -> & -> & -> & ->).
Qed.

Lemma edit_roundtrip_witness :
  let q := withCreatedAt 1700000000000
             (question_with "q1" ["waves"] ["B.4"] (YearNum 2020)) in
  handleSubmit (Some q) 5 6 (openForm (Some q) None 7 2025 (fresh_form 8)) = q.
Proof.
  intros q. apply edit_roundtrip. unfold as_submitted. simpl.
  repeat split; try done; by eexists.
Defined.

(** *** The parts editor *)







(** X22.  [handleAddP2Part] appends one part, with empty images and the
    clock as identifier, and makes it the active one; the other parts and
    the rest of the form are untouched.  Its label is the character after
    the first character of the last part's label (the character with code 0
    when there is no part or the label is empty).  The new label fails to
    be a string exactly when the last label is the name of a member every
    object inherits. *)
Theorem handleAddP2Part_appends (now : Z) (f : Form) :
  let lastLabel := default "" (label <$> last (fm_parts f)) in
  (handleAddP2Part now f = None <-> lastLabel ∈ inheritedNames)
  /\ (forall f', handleAddP2Part now f = Some f' ->
      f' = setParts
             (fm_parts f
              ++ [{| part_id := pretty now; label := nextChar lastLabel;
                     questionImage := None; answerImage := None |}])
             (Z.of_nat (length (fm_parts f))) f).
Proof.
  cbv zeta. unfold handleAddP2Part.
  assert (default "" (label <$> last (fm_parts f))
          = match last (fm_parts f) with Some p => label p | None => "" end)
    as -> by by destruct (last (fm_parts f)).
  set (l := match last (fm_parts f) with Some p => label p | None => "" end).
  clearbody l. unfold nextLabelMap.
  assert (forall (x : string) (P : Prop),
            Js.includes inheritedNames x = false -> x ∈ inheritedNames -> P)
    as Hown.
  { intros x P Hx Hin. apply includes_elem_of in Hin. congruence. }
  destruct (String.eqb_spec l "a") as [-> | _];
    [split; [split; [done | by apply Hown] | by intros f' [= <-]] |].
  destruct (String.eqb_spec l "b") as [-> | _];
    [split; [split; [done | by apply Hown] | by intros f' [= <-]] |].
  destruct (String.eqb_spec l "c") as [-> | _];
    [split; [split; [done | by apply Hown] | by intros f' [= <-]] |].
  destruct (String.eqb_spec l "d") as [-> | _];
    [split; [split; [done | by apply Hown] | by intros f' [= <-]] |].
  destruct (String.eqb_spec l "e") as [-> | _];
    [split; [split; [done | by apply Hown] | by intros f' [= <-]] |].
  destruct (Js.includes inheritedNames l) eqn:E.
  - split; [| done]. split; [intros _; by apply includes_elem_of | done].
  - split; [| by intros f' [= <-]].
    split; [done |]. by apply Hown.
Qed.

(** Twenty-five parts added to a new form carry the letters a to z. *)
Example labels_a_to_z :
  (fun f => label <$> fm_parts f)
    <$> foldr (fun now f => f ≫= handleAddP2Part now)
          (Some (fresh_form 0)) (Z.of_nat <$> seq 1 25)
  = Some ((fun c => String c EmptyString)
            <$> list_ascii_of_string "abcdefghijklmnopqrstuvwxyz").
Proof. by vm_compute. Qed.

Lemma handleAddP2Part_appends_witness :
  (fun f => label <$> fm_parts f) <$> handleAddP2Part 5 (fresh_form 4)
  = Some ["a"; "b"].
Proof.
  destruct (handleAddP2Part 5 (fresh_form 4)) as [f' |] eqn:E.
  - by rewrite (proj2 (handleAddP2Part_appends 5 (fresh_form 4)) f' E).
  - apply (proj1 (handleAddP2Part_appends 5 (fresh_form 4))) in E.
    apply includes_elem_of in E. discriminate.
Defined.

(** *** Editing and saving *)

Lemma length_filter_other {A B} `{EqDecision B} (g : A -> B) (l : list A)
    (x : A) :
  NoDup (g <$> l) -> x ∈ l ->
  length l = S (length (filter (fun y => g y <> g x) l)).
Proof.
  intros Hnd Hx.
  pose proof (filter_app_complement (fun y => g y <> g x) l) as Hperm.
  apply Permutation_length in Hperm. rewrite length_app in Hperm.
  rewrite (list_filter_iff (fun y => ~ g y <> g x) (fun y => g y = g x)) in Hperm.
  - rewrite (filter_unique g l x Hnd Hx) in Hperm. simpl in Hperm. lia.
  - intros y. destruct (decide (g y = g x)); tauto.
Qed.

(** X23.  Editing a question of the list and saving it replaces that
    question: the list keeps its length, holds the edited record and the
    other records, and the store holds the edited record under the same
    identifier. *)
Theorem edit_then_save_replaces (q0 : Question) (f : Form)
    (now_id now_created : Z) (e : Db.Engine) (s : Db.Store) (st : App.AppState) :
  carries_out e -> NoDup (id <$> App.questions st) -> q0 ∈ App.questions st ->
  id q0 <> "" -> createdAt q0 <> 0%Z ->
  let q := handleSubmit (Some q0) now_id now_created f in
  let r := App.handleSaveQuestion q e s st in
  length (App.questions r.2) = length (App.questions st)
  /\ App.questions r.2
     ≡ₚ q :: filter (fun x => id x <> id q0) (App.questions st)
  /\ r.1 !! id q0 = Some q.
Proof.
  intros Hok Hnd Hin Hid Hc. cbv zeta.
  set (q := handleSubmit (Some q0) now_id now_created f).
  assert (id q = id q0) as Hq.
  { unfold q, handleSubmit. simpl. by rewrite (proj2 (truthy_str_true _) Hid). }
  destruct (handleSaveQuestion_ok q e s st Hok) as [-> ->].
  rewrite Hq. split; [| split].
  - rewrite sort_by_Permutation. simpl.
    by rewrite (length_filter_other id (App.questions st) q0).
  - apply sort_by_Permutation.
  - by rewrite <- Hq, lookup_insert_eq.
Qed.

Lemma edit_then_save_replaces_witness :
  let q0 := withCreatedAt 1700000000000
              (question_with "q1" ["waves"] [] (YearNum 2020)) in
  let st := {| App.questions := [q0]; App.isLoading := false;
               App.keepMetadata := false; App.lastUsedMetadata := None;
               App.alerts := [] |} in
  length (App.questions
            (App.handleSaveQuestion (handleSubmit (Some q0) 5 6 (fresh_form 7))
               Db.healthy (<[id q0 := q0]> ∅) st).2) = 1.
Proof.
  intros q0 st.
  apply (edit_then_save_replaces q0 (fresh_form 7) 5 6 Db.healthy
           (<[id q0 := q0]> ∅) st carries_out_healthy).
  - apply NoDup_singleton.
  - by left.
  - discriminate.
  - discriminate.
Defined.

End QuestionForm.

(** ** Study mode *)

Section StudySession.
Import Types StudyMode.

Lemma step_in_range (questions : list Question) (a : Action) (st : State) :
  in_range questions st -> in_range questions (step questions a st).
Proof.
  intros [Hidx Hnd]. unfold in_range. destruct a as [| | partId |]; simpl.
  - unfold handleNext.
    destruct (currentIndex st <? Z.of_nat (length questions) - 1)%Z eqn:E;
      [| done].
    apply Z.ltb_lt in E. simpl. split; [lia | apply NoDup_nil_2].
  - unfold handlePrev. destruct (currentIndex st >? 0)%Z eqn:E; [| done].
    rewrite Z.gtb_ltb in E. apply Z.ltb_lt in E. simpl.
    split; [lia | apply NoDup_nil_2].
  - unfold revealPartAnswer.
    destruct (Js.includes (revealedParts st) partId) eqn:E; simpl; [done |].
    split; [done |]. apply includes_false in E.
    apply NoDup_app. split; [done |]. split; [| apply NoDup_singleton].
    intros x Hx Hx'. by apply list_elem_of_singleton in Hx' as ->.
  - done.
Qed.

(** X24.  In a study session over a non-empty list, whatever the sequence
    of Next, Previous, Reveal and Hide clicks, the index stays within the
    list, so there is always a current question, and no part is listed as
    revealed twice.  Next on the last question and Previous on the first
    change nothing, and moving to another question hides all answers. *)
Theorem study_session_in_range (questions : list Question) (acts : list Action) :
  questions <> [] ->
  let st := run questions acts initial in
  (0 <= currentIndex st < Z.of_nat (length questions))%Z
  /\ is_Some (currentQuestion questions st)
  /\ NoDup (revealedParts st)
  /\ (currentIndex st = Z.of_nat (length questions) - 1 ->
      handleNext questions st = st)%Z
  /\ (currentIndex st = 0%Z -> handlePrev st = st)
  /\ (handleNext questions st <> st ->
      showAnswer (handleNext questions st) = false
      /\ revealedParts (handleNext questions st) = [])
  /\ (handlePrev st <> st ->
      showAnswer (handlePrev st) = false
      /\ revealedParts (handlePrev st) = []).
Proof.
  intros Hne. cbv zeta.
  assert (in_range questions (run questions acts initial)) as [Hidx Hnd].
  { unfold run.
    assert (in_range questions initial) as Hinit.
    { split; [| apply NoDup_nil_2]. simpl. destruct questions; [done |].
      simpl. lia. }
    revert Hinit. generalize initial.
    induction acts as [| a acts IH]; intros st Hst; [done |].
    simpl. apply IH. by apply step_in_range. }
  set (st := run questions acts initial) in *.
  split; [done |]. split.
  { unfold currentQuestion.
    destruct (currentIndex st <? 0)%Z eqn:E; [apply Z.ltb_lt in E; lia |].
    apply lookup_lt_is_Some_2. lia. }
  split; [done |]. split; [| split; [| split]].
  - intros Hlast. unfold handleNext. rewrite Hlast.
    by rewrite Z.ltb_irrefl.
  - intros Hfirst. unfold handlePrev. by rewrite Hfirst.
  - unfold handleNext.
    by destruct (currentIndex st <? Z.of_nat (length questions) - 1)%Z.
  - unfold handlePrev. by destruct (currentIndex st >? 0)%Z.
Qed.

Lemma study_session_in_range_witness :
  let qs := [question_with "q1" [] [] YearUnknown;
             question_with "q2" [] [] YearUnknown] in
  is_Some (currentQuestion qs (run qs [Next; Next; Next; Prev; Reveal "p"] initial)).
Proof.
  intros qs.
  by apply (study_session_in_range qs [Next; Next; Next; Prev; Reveal "p"]).
Defined.

End StudySession.
